(** * deal.II exception and assertion framework

    A shallow embedding of [include/deal.II/base/exceptions.h] (the
    exception catalogue, the dispatcher [issue_error_noreturn] /
    [issue_error_nothrow], the [Assert*] macros and the comparison
    helpers) and of the test [tests/lac/trace.cc], followed by the
    properties proved about them.

    Conventions.
    - A C string ([const char *]) is a [string]; the two arguments for
      which the macros pass [nullptr] ([cond], [exc_name]) are
      [option string].
    - An integer of a C++ integer type is a [Z] together with its
      [int_type]; conversions are written out with their wrap-around.
    - A [double] is an IEEE binary64 [float].
    - Code that throws, aborts or writes to a stream runs in the monad
      [M]: a state transformer over the process-wide [World] whose result
      says how control left the computation. *)

From Stdlib Require Import ZArith String Ascii List Lia Bool.
From Stdlib Require Import Decimal DecimalString Floats.
From Stdlib Require Import DecimalPos DecimalZ.
From Stdlib Require Uint63.
Import ListNotations.
Local Open Scope string_scope.
Local Open Scope Z_scope.

(* ===================================================================== *)
(** * Text written to streams *)
(* ===================================================================== *)

(** [std::endl]: a line feed (the flush has no content). *)
Definition endl : string := String "010"%char EmptyString.

(** [out << n] for an integer [n]: its decimal digits, with a minus sign
    for a negative number. *)
Definition show_Z (z : Z) : string := NilZero.string_of_int (Z.to_int z).

(** [hay] contains [needle] verbatim. *)
Definition contains (hay needle : string) : Prop :=
  exists pre post, hay = pre ++ needle ++ post.

(** The decision procedure for [contains]. *)
Fixpoint containsb (hay needle : string) : bool :=
  String.prefix needle hay
  || match hay with
     | EmptyString => false
     | String _ rest => containsb rest needle
     end.

(** The characters an integer is printed with. *)
Definition is_num_char (c : ascii) : bool :=
  (Ascii.eqb c "-" || ((48 <=? Z.of_nat (nat_of_ascii c)) && (Z.of_nat (nat_of_ascii c) <=? 57)))%bool.

(** A text with the characters of its numbers removed: what is left of a
    message is the fixed text of its template. *)
Fixpoint strip_num (s : string) : string :=
  match s with
  | EmptyString => EmptyString
  | String c rest =>
      if is_num_char c then strip_num rest else String c (strip_num rest)
  end.

(** [out << std::fixed << std::setprecision(0) << x] for a [double]:
    the value rounded to an integer (ties to even), as [tests/lac/trace.cc]
    configures [deallog]. The type [float] has one NaN only, so the sign
    bit of a NaN, which the C library prints, is not represented: for a
    NaN the text stands for both [nan] and [-nan], and nothing below rests
    on it (the value trace.cc prints is never a NaN). *)
Definition round_half_even (m : Z) (k : Z) : Z :=
  let q := Z.shiftr m k in
  let r := m - Z.shiftl q k in
  let half := Z.shiftl 1 (k - 1) in
  if (half <? r) || ((half =? r) && Z.odd q) then q + 1 else q.

Definition show_double_fixed0 (x : float) : string :=
  match Prim2SF x with
  | S754_zero s => if s then "-0" else "0"
  | S754_infinity s => if s then "-inf" else "inf"
  | S754_nan => "nan"
  | S754_finite s m e =>
      (if s then "-" else "")
      ++ show_Z (if 0 <=? e then Z.shiftl (Z.pos m) e
                 else round_half_even (Z.pos m) (- e))
  end.

(* ===================================================================== *)
(** * C++ integer types (LP64) and [std::common_type] *)
(* ===================================================================== *)

Module Cxx.

Inductive int_rank := rank_short | rank_int | rank_long | rank_long_long.

(** An integer type: [short], [int], [long], [long long] and their
    unsigned counterparts. *)
Record int_type := IntType { is_signed : bool; rank : int_rank }.

Definition short_t := IntType true rank_short.
Definition unsigned_short_t := IntType false rank_short.
Definition int_t := IntType true rank_int.
Definition unsigned_int_t := IntType false rank_int.
Definition long_t := IntType true rank_long.
Definition unsigned_long_t := IntType false rank_long.
Definition long_long_t := IntType true rank_long_long.
Definition unsigned_long_long_t := IntType false rank_long_long.

(** [std::size_t] on LP64. *)
Definition size_t := unsigned_long_t.

Definition rank_index (r : int_rank) : Z :=
  match r with
  | rank_short => 1 | rank_int => 2 | rank_long => 3 | rank_long_long => 4
  end.

Definition rank_width (r : int_rank) : Z :=
  match r with
  | rank_short => 16 | rank_int => 32 | rank_long => 64 | rank_long_long => 64
  end.

Definition width (T : int_type) : Z := rank_width (rank T).

Definition min_value (T : int_type) : Z :=
  if is_signed T then - 2 ^ (width T - 1) else 0.

Definition max_value (T : int_type) : Z :=
  if is_signed T then 2 ^ (width T - 1) - 1 else 2 ^ width T - 1.

(** [v] is a value of type [T]. *)
Definition in_range (T : int_type) (v : Z) : Prop :=
  min_value T <= v <= max_value T.

(** [static_cast<T>(v)]: reduction modulo [2^width], read in two's
    complement for a signed [T]. *)
Definition cast (T : int_type) (v : Z) : Z :=
  let m := v mod 2 ^ width T in
  if is_signed T && (2 ^ (width T - 1) <=? m) then m - 2 ^ width T else m.

Definition rank_eqb (a b : int_rank) : bool := rank_index a =? rank_index b.

Definition int_type_eqb (T U : int_type) : bool :=
  Bool.eqb (is_signed T) (is_signed U) && rank_eqb (rank T) (rank U).

(** Integral promotion: a type of rank below [int] becomes [int], which
    represents all values of [short] and [unsigned short]. *)
Definition promote (T : int_type) : int_type :=
  match rank T with
  | rank_short => int_t
  | _ => T
  end.

(** The usual arithmetic conversions on two integer types. *)
Definition usual_arithmetic_conversions (T U : int_type) : int_type :=
  let T' := promote T in
  let U' := promote U in
  if int_type_eqb T' U' then T'
  else if Bool.eqb (is_signed T') (is_signed U') then
    (if rank_index (rank T') <? rank_index (rank U') then U' else T')
  else
    let s := if is_signed T' then T' else U' in
    let u := if is_signed T' then U' else T' in
    if rank_index (rank s) <=? rank_index (rank u) then u
    else if width u <? width s then s
    else IntType false (rank s).

(** [std::common_type_t<T, U>]: the type of [false ? T() : U()], which is
    [T] when both are the same type and the result of the usual
    arithmetic conversions otherwise. *)
Definition common_type (T U : int_type) : int_type :=
  if int_type_eqb T U then T else usual_arithmetic_conversions T U.

End Cxx.
Import Cxx.

(* ===================================================================== *)
(** * Comparison helpers (exceptions.h, namespace internals) *)
(* ===================================================================== *)

(** [compare_for_equality(t, u)]:
    [static_cast<common_type>(t) == static_cast<common_type>(u)]. *)
Definition compare_for_equality (T U : int_type) (t u : Z) : bool :=
  let common := common_type T U in
  cast common t =? cast common u.

(** [compare_less_than(t, u)]:
    [static_cast<common_type>(t) < static_cast<common_type>(u)]. *)
Definition compare_less_than (T U : int_type) (t u : Z) : bool :=
  let common := common_type T U in
  cast common t <? cast common u.

(* ===================================================================== *)
(** * The exception catalogue (namespace StandardExceptions) *)
(* ===================================================================== *)

(** The dynamic type of an exception object together with the members
    [arg], [arg1], ... its class stores by value. One constructor per
    class of the catalogue that the dispatcher, the macros and the tests
    below construct; the members hold values of the declared member type. *)
Inductive ExceptionKind : Type :=
| ExcNotInitialized                                   (* DeclException0 *)
| ExcNotImplemented (arg : string)                    (* DeclExceptionMsg *)
| ExcInternalError (arg : string)                     (* DeclExceptionMsg *)
| ExcMessage (arg1 : string)                          (* DeclException1 *)
| ExcDimensionMismatch (arg1 arg2 : Z)                (* DeclException2, std::size_t *)
| ExcLowerRange (arg1 arg2 : Z)                       (* DeclException2, int *)
| ExcIndexRange (arg1 arg2 arg3 : Z)                  (* DeclException3, std::size_t *)
| ExcIndexRangeType (T : int_type) (arg1 arg2 arg3 : Z). (* DeclException3, T *)

(** The default text of [ExcNotImplemented]. *)
Definition ExcNotImplemented_defaulttext : string :=
  "You are trying to use functionality in deal.II that is "
  ++ "currently not implemented. In many cases, this indicates "
  ++ "that there simply didn't appear much of a need for it, or "
  ++ "that the author of the original code did not have the "
  ++ "time to implement a particular case. If you hit this "
  ++ "exception, it is therefore worth the time to look into "
  ++ "the code to find out whether you may be able to "
  ++ "implement the missing functionality. If you do, please "
  ++ "consider providing a patch to the deal.II development "
  ++ "sources (see the deal.II website on how to contribute).".

(** The default text of [ExcInternalError]. *)
Definition ExcInternalError_defaulttext : string :=
  "This exception -- which is used in many places in the "
  ++ "library -- usually indicates that some condition which "
  ++ "the author of the code thought must be satisfied at a "
  ++ "certain point in an algorithm, is not fulfilled. An "
  ++ "example would be that the first part of an algorithm "
  ++ "sorts elements of an array in ascending order, and "
  ++ "a second part of the algorithm later encounters an "
  ++ "element that is not larger than the previous one."
  ++ endl ++ endl
  ++ "There is usually not very much you can do if you "
  ++ "encounter such an exception since it indicates an error "
  ++ "in deal.II, not in your own program. Try to come up with "
  ++ "the smallest possible program that still demonstrates "
  ++ "the error and contact the deal.II mailing lists with it "
  ++ "to obtain help.".

(** The clarification [ExcIndexRange] and [ExcIndexRangeType] append for
    an empty range. *)
Definition empty_range_clarification : string :=
  " In the current case, this half-open range is in fact empty, "
  ++ "suggesting that you are accessing an element of an empty "
  ++ "collection such as a vector that has not been set to the "
  ++ "correct size.".

(** The [outsequence] shared by [ExcIndexRange] and [ExcIndexRangeType]. *)
Definition index_range_outsequence (arg1 arg2 arg3 : Z) : string :=
  "Index " ++ show_Z arg1 ++ " is not in the half-open range ["
  ++ show_Z arg2 ++ "," ++ show_Z arg3 ++ ")."
  ++ (if arg2 =? arg3 then empty_range_clarification else "").

(** Modelled from the spec: the body of [ExceptionBase::print_info], which
    a [DeclException0] class inherits, is in exceptions.cc and not among
    the sources; by the spec the default adds nothing beyond the generic
    fields. *)
Definition ExceptionBase_print_info : string := "".

(** [print_info(out)]: the text the virtual function writes to [out].
    Every [DeclExceptionN] class writes four blanks, its [outsequence]
    and [std::endl]; [DeclExceptionMsg] writes its message the same way. *)
Definition print_info (k : ExceptionKind) : string :=
  match k with
  | ExcNotInitialized => ExceptionBase_print_info
  | ExcNotImplemented arg => "    " ++ arg ++ endl
  | ExcInternalError arg => "    " ++ arg ++ endl
  | ExcMessage arg1 => "    " ++ arg1 ++ endl
  | ExcDimensionMismatch arg1 arg2 =>
      "    " ++ "Two sizes or dimensions were supposed to be equal, "
      ++ "but aren't. They are " ++ show_Z arg1 ++ " and " ++ show_Z arg2
      ++ "." ++ endl
  | ExcLowerRange arg1 arg2 =>
      "    " ++ "Number " ++ show_Z arg1 ++ " must be larger than or equal "
      ++ show_Z arg2 ++ "." ++ endl
  | ExcIndexRange arg1 arg2 arg3 =>
      "    " ++ index_range_outsequence arg1 arg2 arg3 ++ endl
  | ExcIndexRangeType _ arg1 arg2 arg3 =>
      "    " ++ index_range_outsequence arg1 arg2 arg3 ++ endl
  end.

(** The line [ExcIndexRange] prints for a range that is not empty: only
    the statement that the index is not in the half-open range. *)
Definition index_range_plain (arg1 arg2 arg3 : Z) : string :=
  "    " ++ ("Index " ++ show_Z arg1 ++ " is not in the half-open range ["
            ++ show_Z arg2 ++ "," ++ show_Z arg3 ++ ")." ++ "") ++ endl.

(* ===================================================================== *)
(** * class ExceptionBase *)
(* ===================================================================== *)

(** An exception object: the members of [ExceptionBase] and, in
    [derived], the dynamic type with the members of the derived class. *)
Record ExceptionBase : Type := {
  file : string;                 (* const char *file *)
  line : Z;                      (* unsigned int line *)
  function : string;             (* const char *function *)
  cond : option string;          (* const char *cond, None = nullptr *)
  exc : option string;           (* const char *exc, None = nullptr *)
  n_stacktrace_frames : Z;       (* int n_stacktrace_frames *)
  raw_stacktrace : list Z;       (* void *raw_stacktrace[25] *)
  what_str : string;             (* mutable std::string what_str *)
  derived : ExceptionKind
}.

(** Modelled from the spec: the default constructor [ExceptionBase()] is
    in exceptions.cc, not among the sources. A freshly value-constructed
    object has no location yet: empty texts, line 0, no stack frames and
    no rendered message. [construct k] is the expression [Exc(args...)]
    at a call site. *)
Definition construct (k : ExceptionKind) : ExceptionBase :=
  {| file := ""; line := 0; function := ""; cond := Some ""; exc := Some "";
     n_stacktrace_frames := 0; raw_stacktrace := []; what_str := "";
     derived := k |}.

(** Modelled from the spec: [ExceptionBase::print_exc_data] is in
    exceptions.cc, not among the sources. The generic fields block: file,
    line, function, failing condition and kind name, the last two only
    when the call site supplied them. *)
Definition print_exc_data (e : ExceptionBase) : string :=
  "An error occurred in line <" ++ show_Z (line e) ++ "> of file <"
  ++ file e ++ "> in function" ++ endl
  ++ "    " ++ function e ++ endl
  ++ match cond e with
     | Some c => "The violated condition was: " ++ endl ++ "    " ++ c ++ endl
     | None => ""
     end
  ++ match exc e with
     | Some n =>
         "The name and call sequence of the exception was:" ++ endl
         ++ "    " ++ n ++ endl
     | None => ""
     end
  ++ "Additional information: " ++ endl.

(** One line per recorded frame. *)
Fixpoint print_frames (i : Z) (frames : list Z) : string :=
  match frames with
  | [] => ""
  | a :: rest =>
      "#" ++ show_Z i ++ "  " ++ show_Z a ++ endl ++ print_frames (i + 1) rest
  end.

(** Modelled from the spec: [ExceptionBase::print_stack_trace] is in
    exceptions.cc, not among the sources. A formatted stack trace if one
    has been recorded, nothing otherwise; a frame is shown by its
    address. *)
Definition print_stack_trace (e : ExceptionBase) : string :=
  if n_stacktrace_frames e =? 0 then ""
  else endl ++ "Stacktrace:" ++ endl ++ "-----------" ++ endl
       ++ print_frames 0 (raw_stacktrace e).

Definition rule : string :=
  "--------------------------------------------------------".

Definition set_what_str (s : string) (e : ExceptionBase) : ExceptionBase :=
  {| file := file e; line := line e; function := function e; cond := cond e;
     exc := exc e; n_stacktrace_frames := n_stacktrace_frames e;
     raw_stacktrace := raw_stacktrace e; what_str := s;
     derived := derived e |}.

(** Modelled from the spec: [ExceptionBase::generate_message] is in
    exceptions.cc, not among the sources. It populates [what_str] with the
    generic fields, followed by the kind-specific explanation and, if
    present, the formatted stack trace. *)
Definition generate_message (e : ExceptionBase) : ExceptionBase :=
  set_what_str
    (endl ++ rule ++ endl
     ++ print_exc_data e ++ print_info (derived e) ++ print_stack_trace e
     ++ rule ++ endl)
    e.

Definition string_empty (s : string) : bool :=
  match s with EmptyString => true | String _ _ => false end.

(** Modelled from the spec: [ExceptionBase::what] is in exceptions.cc, not
    among the sources. The message is built lazily and cached in the
    object: the first call generates it, later calls return the cached
    text. The method is [const] with a [mutable] cache, so the call
    yields the text and the object with its cache filled. *)
Definition what (e : ExceptionBase) : string * ExceptionBase :=
  if string_empty (what_str e)
  then let e' := generate_message e in (what_str e', e')
  else (what_str e, e).

(** [get_exc_name()]. *)
Definition get_exc_name (e : ExceptionBase) : option string := exc e.

(* ===================================================================== *)
(** * Process-wide state and the control monad *)
(* ===================================================================== *)

(** What the dispatcher does that can be observed from outside, in the
    order it happens. *)
Inductive event : Type :=
| CallSetFields (file : string) (line : Z) (function : string)
                (cond exc_name : option string)   (* a call of set_fields *)
| WriteCerr (text : string)                       (* std::cerr << text *)
| WriteDeallog (text : string).                   (* deallog << text, as streamed *)

(** Modelled from the spec: of the process-wide policy state only
    [allow_abort_on_exception] is declared in exceptions.h; the stack
    trace switch and the additional output text are variables of
    exceptions.cc, not among the sources. The process consists of these
    three, of the call stack the platform would record at this point
    (empty where stack traces are not supported), and of the events so
    far. *)
Record World : Type := {
  allow_abort_on_exception : bool;
  show_stacktrace : bool;
  additional_assert_output : option string;
  backtrace : list Z;
  trace : list event
}.

(** How control leaves a computation. *)
Inductive outcome (A : Type) : Type :=
| Normal (a : A)               (* returns to its caller *)
| Thrown (e : ExceptionBase)   (* [throw e] propagates *)
| Aborted.                     (* [std::abort()]: the process is gone *)
Arguments Normal {A} a.
Arguments Thrown {A} e.
Arguments Aborted {A}.

Definition M (A : Type) : Type := World -> outcome A * World.

Definition ret {A : Type} (a : A) : M A := fun w => (Normal a, w).

Definition bind {A B : Type} (c : M A) (k : A -> M B) : M B :=
  fun w =>
    match c w with
    | (Normal a, w') => k a w'
    | (Thrown e, w') => (Thrown e, w')
    | (Aborted, w') => (Aborted, w')
    end.

Declare Scope cxx_scope.
Delimit Scope cxx_scope with cxx.
Notation "x <- c ;; k" := (bind c (fun x => k))
  (at level 61, c at next level, right associativity) : cxx_scope.
Notation "c ;; k" := (bind c (fun _ => k))
  (at level 61, right associativity) : cxx_scope.
Local Open Scope cxx_scope.

Definition throw {A : Type} (e : ExceptionBase) : M A := fun w => (Thrown e, w).

Definition std_abort {A : Type} : M A := fun w => (Aborted, w).

Definition read {A : Type} (f : World -> A) : M A := fun w => (Normal (f w), w).

Definition emit (ev : event) : M unit :=
  fun w =>
    (Normal tt,
     {| allow_abort_on_exception := allow_abort_on_exception w;
        show_stacktrace := show_stacktrace w;
        additional_assert_output := additional_assert_output w;
        backtrace := backtrace w;
        trace := trace w ++ [ev] |}).

Definition set_allow_abort (b : bool) (w : World) : World :=
  {| allow_abort_on_exception := b;
     show_stacktrace := show_stacktrace w;
     additional_assert_output := additional_assert_output w;
     backtrace := backtrace w;
     trace := trace w |}.

(** Modelled from the spec: the initial values of the policy variables
    are set in exceptions.cc, not among the sources. Before [main]
    aborting is allowed (terminating is the default, which
    [enable_abort_on_exception] restores), stack traces are shown and no
    additional output is set. *)
Definition initial_world (frames : list Z) : World :=
  {| allow_abort_on_exception := true;
     show_stacktrace := true;
     additional_assert_output := None;
     backtrace := frames;
     trace := [] |}.

(* ===================================================================== *)
(** * Policy operations (namespace deal_II_exceptions) *)
(* ===================================================================== *)

(** Modelled from the spec: [disable_abort_on_exception] is declared in
    exceptions.h and defined in exceptions.cc, not among the sources. It
    switches off the use of [std::abort()]: it clears
    [allow_abort_on_exception]. *)
Definition disable_abort_on_exception : M unit :=
  fun w => (Normal tt, set_allow_abort false w).

(** Modelled from the spec: [enable_abort_on_exception] is declared in
    exceptions.h and defined in exceptions.cc, not among the sources. It
    switches the use of [std::abort()] back on: it sets
    [allow_abort_on_exception]. *)
Definition enable_abort_on_exception : M unit :=
  fun w => (Normal tt, set_allow_abort true w).

(** Modelled from the spec: [set_additional_assert_output] is defined in
    exceptions.cc, not among the sources. The text is copied and replaces
    any previously set value. *)
Definition set_additional_assert_output (p : string) : M unit :=
  fun w =>
    (Normal tt,
     {| allow_abort_on_exception := allow_abort_on_exception w;
        show_stacktrace := show_stacktrace w;
        additional_assert_output := Some p;
        backtrace := backtrace w;
        trace := trace w |}).

(** Modelled from the spec: [suppress_stacktrace_in_exceptions] is
    defined in exceptions.cc, not among the sources. It disables stack
    traces for all subsequent failures. *)
Definition suppress_stacktrace_in_exceptions : M unit :=
  fun w =>
    (Normal tt,
     {| allow_abort_on_exception := allow_abort_on_exception w;
        show_stacktrace := false;
        additional_assert_output := additional_assert_output w;
        backtrace := backtrace w;
        trace := trace w |}).

(** Modelled from the spec: [ExceptionBase::set_fields] is declared in
    exceptions.h and defined in exceptions.cc, not among the sources. It
    copies the location into the object ([int line] is stored in an
    [unsigned int]) and populates the stack trace: at most the 25 frames
    [raw_stacktrace] holds, none when stack traces are suppressed or not
    supported. The object is modified in place, so the call yields the
    modified object. *)
Definition set_fields (e : ExceptionBase) (file : string) (line : Z)
    (function : string) (cond exc_name : option string) : M ExceptionBase :=
  emit (CallSetFields file line function cond exc_name) ;;
  frames <- read (fun w =>
              if show_stacktrace w then firstn 25 (backtrace w) else []) ;;
  ret {| file := file;
         line := cast unsigned_int_t line;
         function := function;
         cond := cond;
         exc := exc_name;
         n_stacktrace_frames := Z.of_nat (length frames);
         raw_stacktrace := frames;
         what_str := what_str e;
         derived := derived e |}.

(* ===================================================================== *)
(** * The dispatcher (namespace deal_II_exceptions::internals) *)
(* ===================================================================== *)

(** Modelled from the spec: [internals::abort] is declared
    [[[noreturn]] ... noexcept] in exceptions.h and defined in
    exceptions.cc, not among the sources. It prints the diagnostics and,
    if one is set, the additional output, and terminates the process. *)
Definition abort (e : ExceptionBase) : M unit :=
  emit (WriteCerr (fst (what e) ++ endl)) ;;
  extra <- read additional_assert_output ;;
  match extra with
  | Some text => emit (WriteCerr (rule ++ endl ++ text ++ endl))
  | None => ret tt
  end ;;
  std_abort.

(** [enum class ExceptionHandling]: an enumeration over [int], whose two
    enumerators are 0 and 1; every [int] is a value of the type. *)
Definition ExceptionHandling : Type := Z.
Definition abort_or_throw_on_exception : ExceptionHandling := 0.
Definition throw_on_exception : ExceptionHandling := 1.

(** [issue_error_noreturn(handling, file, line, function, cond, exc_name,
    e)]. In the [switch], the first case has no [break]: control would
    fall through to the second. *)
Definition issue_error_noreturn (handling : ExceptionHandling)
    (file : string) (line : Z) (function : string)
    (cond exc_name : option string) (e : ExceptionBase) : M unit :=
  e <- set_fields e file line function cond exc_name ;;
  if handling =? abort_or_throw_on_exception then
    (allow <- read allow_abort_on_exception ;;
     if allow : bool then abort e else throw e) ;;
    throw e
  else if handling =? throw_on_exception then
    throw e
  else
    throw (construct (ExcInternalError ExcInternalError_defaulttext)).

(** Modelled from the spec: [do_issue_error_nothrow] is declared
    [noexcept] in exceptions.h and defined in exceptions.cc, not among
    the sources. By the spec the log-only mode prints the rendered
    diagnostic to the logging sink and returns normally; by the
    documentation of [AssertNothrow] and of [allow_abort_on_exception] in
    exceptions.h it does so when [disable_abort_on_exception] was called,
    and behaves as [Assert] does, aborting, as long as it was not. *)
Definition do_issue_error_nothrow (e : ExceptionBase) : M unit :=
  allow <- read allow_abort_on_exception ;;
  if allow : bool then abort e
  else emit (WriteDeallog (fst (what e) ++ endl)).

(** [issue_error_nothrow(file, line, function, cond, exc_name, e)]. *)
Definition issue_error_nothrow (file : string) (line : Z) (function : string)
    (cond exc_name : option string) (e : ExceptionBase) : M unit :=
  e <- set_fields e file line function cond exc_name ;;
  do_issue_error_nothrow e.

(* ===================================================================== *)
(** * The assertion macros *)
(* ===================================================================== *)

(** Where a macro is expanded: [__FILE__], [__LINE__] and
    [__PRETTY_FUNCTION__]. *)
Record call_site : Type := {
  FILE : string;
  LINE : Z;
  PRETTY_FUNCTION : string
}.

(** [__LINE__] is a positive [int]. *)
Definition valid_site (site : call_site) : Prop := 1 <= LINE site <= 2147483647.

(** [Assert(cond, exc)] on the host. [DEBUG] says whether the macro
    [DEBUG] is defined: without it the expansion is empty. [cond_text] and
    [exc_text] are the stringified arguments [#cond] and [#exc]; [exc] is
    evaluated only where the expansion uses it. *)
Definition Assert (DEBUG : bool) (site : call_site) (cond : bool)
    (cond_text exc_text : string) (exc : ExceptionBase) : M unit :=
  if DEBUG then
    if negb cond then
      issue_error_noreturn abort_or_throw_on_exception
        (FILE site) (LINE site) (PRETTY_FUNCTION site)
        (Some cond_text) (Some exc_text) exc
    else ret tt
  else ret tt.

(** [AssertNothrow(cond, exc)]. *)
Definition AssertNothrow (DEBUG : bool) (site : call_site) (cond : bool)
    (cond_text exc_text : string) (exc : ExceptionBase) : M unit :=
  if DEBUG then
    if negb cond then
      issue_error_nothrow
        (FILE site) (LINE site) (PRETTY_FUNCTION site)
        (Some cond_text) (Some exc_text) exc
    else ret tt
  else ret tt.

(** [AssertThrow(cond, exc)]: active in both DEBUG and RELEASE modes. *)
Definition AssertThrow (site : call_site) (cond : bool)
    (cond_text exc_text : string) (exc : ExceptionBase) : M unit :=
  if negb cond then
    issue_error_noreturn throw_on_exception
      (FILE site) (LINE site) (PRETTY_FUNCTION site)
      (Some cond_text) (Some exc_text) exc
  else ret tt.

(** [DEAL_II_NOT_IMPLEMENTED()]: no condition and no name are passed. *)
Definition DEAL_II_NOT_IMPLEMENTED (site : call_site) : M unit :=
  issue_error_noreturn abort_or_throw_on_exception
    (FILE site) (LINE site) (PRETTY_FUNCTION site)
    None None (construct (ExcNotImplemented ExcNotImplemented_defaulttext)).

(** [AssertDimension(dim1, dim2)]; [dim1_text] and [dim2_text] are the
    arguments as written, [T] and [U] their types. The constructor of
    [ExcDimensionMismatch] takes [std::size_t]. *)
Definition AssertDimension (DEBUG : bool) (site : call_site)
    (T U : int_type) (dim1 dim2 : Z) (dim1_text dim2_text : string) : M unit :=
  Assert DEBUG site (compare_for_equality T U dim1 dim2)
    ("::dealii::deal_II_exceptions::internals::compare_for_equality("
     ++ dim1_text ++ ", " ++ dim2_text ++ ")")
    ("dealii::ExcDimensionMismatch((" ++ dim1_text ++ "), (" ++ dim2_text ++ "))")
    (construct (ExcDimensionMismatch (cast size_t dim1) (cast size_t dim2))).

(** [AssertIndexRange(index, range)]: the exception is
    [ExcIndexRangeType<common_type>((index), 0, (range))]. *)
Definition AssertIndexRange (DEBUG : bool) (site : call_site)
    (T U : int_type) (index range : Z) (index_text range_text : string)
    : M unit :=
  let common := common_type T U in
  Assert DEBUG site (compare_less_than T U index range)
    ("::dealii::deal_II_exceptions::internals::compare_less_than("
     ++ index_text ++ ", " ++ range_text ++ ")")
    ("dealii::ExcIndexRangeType<::dealii::internal::argument_type_t<void( "
     ++ "std::common_type_t<decltype(" ++ index_text ++ "), decltype("
     ++ range_text ++ ")>)>>((" ++ index_text ++ "), 0, (" ++ range_text ++ "))")
    (construct
       (ExcIndexRangeType common (cast common index) 0 (cast common range))).

(** A check triggers a failure when control does not come back from it. *)
Definition triggers_failure {A : Type} (c : M A) (w : World) : bool :=
  match fst (c w) with
  | Normal _ => false
  | Thrown _ => true
  | Aborted => true
  end.

(* ===================================================================== *)
(** * tests/lac/trace.cc *)
(* ===================================================================== *)

(** Modelled from the spec: [FullMatrix<double>] is declared in
    deal.II/lac/full_matrix.h, not among the sources. A table of
    [n_rows * n_cols] entries stored row by row, all zero after
    construction. *)
Record FullMatrix : Type := {
  n_rows : nat;
  n_cols : nat;
  values : list float
}.

Definition FullMatrix_new (rows cols : nat) : FullMatrix :=
  {| n_rows := rows; n_cols := cols; values := repeat 0%float (rows * cols) |}.

Fixpoint list_set (l : list float) (k : nat) (x : float) : list float :=
  match l, k with
  | [], _ => []
  | _ :: rest, O => x :: rest
  | y :: rest, S k' => y :: list_set rest k' x
  end.

(** [m(i,j)], read. *)
Definition entry (m : FullMatrix) (i j : nat) : float :=
  nth (i * n_cols m + j) (values m) 0%float.

(** [m(i,j) = x]. *)
Definition set_entry (m : FullMatrix) (i j : nat) (x : float) : FullMatrix :=
  {| n_rows := n_rows m; n_cols := n_cols m;
     values := list_set (values m) (i * n_cols m + j) x |}.

(** Modelled from the spec: [FullMatrix::trace] is defined in
    deal.II/lac/full_matrix.templates.h, not among the sources. The
    library's own diagonal sum: the entries [m(i,i)] added up in order. *)
Definition FullMatrix_trace (m : FullMatrix) : float :=
  fold_left (fun tr i => (tr + entry m i i)%float) (seq 0 (n_rows m)) 0%float.

(** [(double)(i + j)] for [unsigned int i, j]: the sum wraps at [2^32]. *)
Definition double_of_unsigned_sum (i j : nat) : float :=
  of_uint63 (Uint63.of_Z (cast unsigned_int_t (Z.of_nat i + Z.of_nat j))).

(** The two nested loops of [main]: fill [m(i,j) = i+j] and accumulate
    the diagonal into [tr]. *)
Definition fill_and_sum (N : nat) : FullMatrix * float :=
  fold_left
    (fun st i =>
       fold_left
         (fun '(m, tr) j =>
            let m := set_entry m i j (double_of_unsigned_sum i j) in
            if Nat.eqb i j
            then (m, (tr + double_of_unsigned_sum i j)%float)
            else (m, tr))
         (seq 0 N) st)
    (seq 0 N) (FullMatrix_new N N, 0%float).

(** The site of the [Assert] in trace.cc. *)
Definition trace_cc_site : call_site :=
  {| FILE := "tests/lac/trace.cc"; LINE := 45; PRETTY_FUNCTION := "int main()" |}.

(** The end of [main]: the log line and the check of [m.trace()] against
    the accumulated [tr]. *)
Definition check_trace (DEBUG : bool) (m : FullMatrix) (tr : float) : M unit :=
  emit (WriteDeallog ("Trace=" ++ show_double_fixed0 (FullMatrix_trace m) ++ endl)) ;;
  Assert DEBUG trace_cc_site (FullMatrix_trace m =? tr)%float
    "m.trace() == tr" "ExcInternalError()"
    (construct (ExcInternalError ExcInternalError_defaulttext)).

(** [main] of trace.cc. *)
Definition trace_cc_main (DEBUG : bool) : M Z :=
  let '(m, tr) := fill_and_sum 20 in
  check_trace DEBUG m tr ;;
  ret 0.

(* ===================================================================== *)
(** * Catching, and the vocabulary of the properties *)
(* ===================================================================== *)

(** [try { c } catch (ExceptionBase &e) { handler e }]: a thrown
    exception is handed to the handler; an abort is not. *)
Definition try_catch {A : Type} (c : M A) (handler : ExceptionBase -> M A) : M A :=
  fun w =>
    match c w with
    | (Normal a, w') => (Normal a, w')
    | (Thrown e, w') => handler e w'
    | (Aborted, w') => (Aborted, w')
    end.

(** The world after one more event. *)
Definition log (ev : event) (w : World) : World := snd (emit ev w).

(** The events a computation adds when run in [w]. *)
Definition events_of {A : Type} (c : M A) (w : World) : list event :=
  skipn (length (trace w)) (trace (snd (c w))).

Definition is_set_fields (ev : event) : bool :=
  match ev with
  | CallSetFields _ _ _ _ _ => true
  | _ => false
  end.

(** How many times [set_fields] was called. *)
Definition count_set_fields (evs : list event) : nat :=
  length (filter is_set_fields evs).

(** The object [exc] after [set_fields(file, line, function, cond,
    exc_name)] has run on it in [w]. *)
Definition populated (w : World) (file : string) (line : Z) (function : string)
    (cond exc_name : option string) (exc : ExceptionBase) : ExceptionBase :=
  match fst (set_fields exc file line function cond exc_name w) with
  | Normal e => e
  | _ => exc
  end.

(** The object carries the location of the call site. *)
Definition carries_location (e : ExceptionBase) (f : string) (l : Z)
    (fn : string) (c n : option string) : Prop :=
  file e = f /\ line e = cast unsigned_int_t l /\ function e = fn
  /\ cond e = c /\ exc e = n.

(** The two policy toggles, and a sequence of them performed in order. *)
Inductive toggle : Type := Disable | Enable.

Definition run_toggle (t : toggle) : M unit :=
  match t with
  | Disable => disable_abort_on_exception
  | Enable => enable_abort_on_exception
  end.

Fixpoint run_toggles (ts : list toggle) : M unit :=
  match ts with
  | [] => ret tt
  | t :: rest => run_toggle t ;; run_toggles rest
  end.

(** The world in which [abort e] leaves the process. *)
Definition abort_world (e : ExceptionBase) (w : World) : World := snd (abort e w).


(** The termination report [abort e] writes in [w]. *)
Definition abort_report (e : ExceptionBase) (w : World) : list event :=
  WriteCerr (fst (what e) ++ endl)
  :: match additional_assert_output w with
     | Some text => [WriteCerr (rule ++ endl ++ text ++ endl)]
     | None => []
     end.


(** What a handler sees when it asks a caught exception for its message
    twice: the text of the first and of the second call of [what()]. *)
Definition describe_twice (e : ExceptionBase) : string * string :=
  let '(s1, e1) := what e in (s1, fst (what e1)).

(** Every entry of the [N] by [N] matrix [m] is the sum of its indices. *)
Definition entries_are_index_sums (N : nat) (m : FullMatrix) : bool :=
  forallb (fun i =>
    forallb (fun j => (entry m i j =? double_of_unsigned_sum i j)%float)
            (seq 0 N))
    (seq 0 N).


(* ===================================================================== *)
(** * Further macros of exceptions.h *)
(* ===================================================================== *)

(** The message [DEAL_II_ASSERT_UNREACHABLE()] passes to [ExcMessage]. *)
Definition unreachable_message : string :=
  "The program has hit a line of code that the programmer "
  ++ "marked with the macro DEAL_II_ASSERT_UNREACHABLE() to "
  ++ "indicate that the program should never reach this "
  ++ "location. You will have to find out (best done in a "
  ++ "debugger) why that happened. Typical reasons include "
  ++ "passing invalid arguments to functions (for example, if "
  ++ "a function takes an 'enum' with two possible values "
  ++ "as argument, but you call the function with a third "
  ++ "value), or if the programmer of the code that triggered "
  ++ "the error believed that a variable can only have "
  ++ "specific values, but either that assumption is wrong "
  ++ "or the computation of that value is buggy."
  ++ endl ++ endl
  ++ "In those latter conditions, where some internal "
  ++ "assumption is not satisfied, there may not be very "
  ++ "much you can do if you encounter such an exception, "
  ++ "since it indicates an error in deal.II, not in your "
  ++ "own program. If that is the situation you encounter, "
  ++ "try to come up with "
  ++ "the smallest possible program that still demonstrates "
  ++ "the error and contact the deal.II mailing lists with it "
  ++ "to obtain help.".

(** [DEAL_II_ASSERT_UNREACHABLE()]: no condition and no name are passed. *)
Definition DEAL_II_ASSERT_UNREACHABLE (site : call_site) : M unit :=
  issue_error_noreturn abort_or_throw_on_exception
    (FILE site) (LINE site) (PRETTY_FUNCTION site)
    None None (construct (ExcMessage unreachable_message)).

(** [for (const auto &x : l) body(x);] *)
Fixpoint for_each {A : Type} (l : list A) (body : A -> M unit) : M unit :=
  match l with
  | [] => ret tt
  | x :: rest => body x ;; for_each rest body
  end.

(** [AssertVectorVectorDimension(VEC, DIM1, DIM2)]: two statements, the
    check of [VEC.size()] against [DIM1] and the loop that checks the
    size of every entry against [DIM2]. A [size()] is a [std::size_t];
    [T1] and [T2] are the types of [DIM1] and [DIM2]. *)
Definition AssertVectorVectorDimension {A : Type} (DEBUG : bool)
    (site : call_site) (VEC : list (list A)) (T1 T2 : int_type)
    (DIM1 DIM2 : Z) (vec_text dim1_text dim2_text : string) : M unit :=
  AssertDimension DEBUG site size_t T1 (Z.of_nat (length VEC)) DIM1
    (vec_text ++ ".size()") dim1_text ;;
  for_each VEC (fun subvector =>
    AssertDimension DEBUG site size_t T2 (Z.of_nat (length subvector)) DIM2
      "subvector.size()" dim2_text).

(** A text that consists of the characters of a number only. *)
Definition all_num (s : string) : Prop := strip_num s = "".

(** The policy variables and the recorded call stack of two processes
    agree. *)
Definition same_policy (w1 w2 : World) : Prop :=
  allow_abort_on_exception w1 = allow_abort_on_exception w2
  /\ show_stacktrace w1 = show_stacktrace w2
  /\ additional_assert_output w1 = additional_assert_output w2
  /\ backtrace w1 = backtrace w2.


(** [m] is an [N] by [N] matrix. *)
Definition square (N : nat) (m : FullMatrix) : Prop :=
  n_rows m = N /\ n_cols m = N /\ length (values m) = (N * N)%nat.

(** The first [k] diagonal values [i+i] of trace.cc added up in order,
    starting from zero. *)
Definition diagonal_sum (k : nat) : float :=
  fold_left (fun tr i => (tr + double_of_unsigned_sum i i)%float)
            (seq 0 k) 0%float.

(** One pass of the inner loop of trace.cc, for row [i] and the columns
    below [k]. *)
Definition fill_row (N i k : nat) (st : FullMatrix * float) : FullMatrix * float :=
  fold_left
    (fun '(m, tr) j =>
       let m := set_entry m i j (double_of_unsigned_sum i j) in
       if Nat.eqb i j
       then (m, (tr + double_of_unsigned_sum i j)%float)
       else (m, tr))
    (seq 0 k) st.


(** The double is a number that is not negative: a zero, a positive
    finite number or plus infinity, and so not a NaN. *)
Definition nonneg_number (s : spec_float) : Prop :=
  match s with
  | S754_zero _ => True
  | S754_infinity false => True
  | S754_finite false _ _ => True
  | _ => False
  end.


(* ===================================================================== *)
(** * Facts about text *)
(* ===================================================================== *)

Section TextFacts.

Lemma app_assoc_s (a b c : string) : (a ++ b) ++ c = a ++ b ++ c.
Proof. induction a as [|ch a IH]; simpl; [reflexivity | now rewrite IH]. Qed.

Lemma app_nil_r_s (a : string) : a ++ "" = a.
Proof. induction a as [|ch a IH]; simpl; [reflexivity | now rewrite IH]. Qed.

Lemma contains_refl (s : string) : contains s s.
Proof. exists "", "". simpl. now rewrite app_nil_r_s. Qed.

Lemma contains_app_l (a b x : string) : contains a x -> contains (a ++ b) x.
Proof.
  intros (pre & post & ->). exists pre, (post ++ b).
  now rewrite !app_assoc_s.
Qed.

Lemma contains_app_r (a b x : string) : contains b x -> contains (a ++ b) x.
Proof.
  intros (pre & post & ->). exists (a ++ pre), post.
  now rewrite !app_assoc_s.
Qed.

Lemma contains_trans (a b c : string) :
  contains a b -> contains b c -> contains a c.
Proof.
  intros (p1 & q1 & ->) (p2 & q2 & ->).
  exists (p1 ++ p2), (q2 ++ q1). now rewrite !app_assoc_s.
Qed.

Lemma prefix_iff (n h : string) :
  String.prefix n h = true <-> exists post, h = n ++ post.
Proof.
  revert h; induction n as [|a n IH]; intros h; simpl.
  - destruct h; split; eauto.
  - destruct h as [|b h].
    + split; [discriminate | intros (post & H); discriminate].
    + simpl. destruct (ascii_dec a b) as [->|ne].
      * rewrite IH. split; intros (post & H); exists post.
        -- now rewrite H.
        -- now inversion H.
      * split; [discriminate | intros (post & H)].
        inversion H; congruence.
Qed.

Lemma containsb_iff (h n : string) : containsb h n = true <-> contains h n.
Proof.
  induction h as [|c h IH]; cbn [containsb]; rewrite orb_true_iff, prefix_iff.
  - split.
    + intros [(post & H) | H]; [| discriminate].
      exists "", post. exact H.
    + intros (pre & post & H). left.
      destruct pre; [now exists post | discriminate].
  - rewrite IH. split.
    + intros [(post & H) | (pre & post & H)].
      * exists "", post. exact H.
      * exists (String c pre), post. simpl. now rewrite H.
    + intros (pre & post & H). destruct pre as [|c' pre]; simpl in H.
      * left. now exists post.
      * right. exists pre, post. now inversion H.
Qed.

Lemma not_contains (h n : string) : containsb h n = false -> ~ contains h n.
Proof.
  intros H C. apply containsb_iff in C. congruence.
Qed.

Lemma strip_num_app (a b : string) :
  strip_num (a ++ b) = strip_num a ++ strip_num b.
Proof.
  induction a as [|c a IH]; simpl; [reflexivity |].
  destruct (is_num_char c); simpl; now rewrite IH.
Qed.

Lemma strip_num_contains (h n : string) :
  contains h n -> contains (strip_num h) (strip_num n).
Proof.
  intros (pre & post & ->). exists (strip_num pre), (strip_num post).
  now rewrite !strip_num_app.
Qed.

Lemma strip_num_uint (d : uint) : strip_num (NilEmpty.string_of_uint d) = "".
Proof. induction d; simpl; auto. Qed.

Lemma strip_num_show_Z (z : Z) : strip_num (show_Z z) = "".
Proof.
  unfold show_Z, NilZero.string_of_int, NilZero.string_of_uint.
  destruct (Z.to_int z) as [d | d]; destruct d; simpl;
    try reflexivity; apply strip_num_uint.
Qed.

End TextFacts.

(* ===================================================================== *)
(** * The out-of-range index kinds *)
(* ===================================================================== *)

Section IndexRange.

Lemma strip_num_plain (arg1 arg2 arg3 : Z) :
  strip_num (index_range_plain arg1 arg2 arg3)
  = strip_num (index_range_plain 0 0 0).
Proof.
  unfold index_range_plain.
  now rewrite !strip_num_app, !strip_num_show_Z.
Qed.

Lemma plain_has_no_clarification (arg1 arg2 arg3 : Z) :
  ~ contains (index_range_plain arg1 arg2 arg3) empty_range_clarification.
Proof.
  intros C. apply strip_num_contains in C.
  rewrite strip_num_plain in C. revert C.
  apply not_contains. vm_compute. reflexivity.
Qed.

Lemma outsequence_empty (arg1 arg2 : Z) :
  contains ("    " ++ index_range_outsequence arg1 arg2 arg2 ++ endl)
           empty_range_clarification.
Proof.
  unfold index_range_outsequence. rewrite Z.eqb_refl.
  apply contains_app_r, contains_app_l.
  do 7 apply contains_app_r. apply contains_refl.
Qed.

Lemma outsequence_nonempty (arg1 arg2 arg3 : Z) :
  arg2 <> arg3 ->
  "    " ++ index_range_outsequence arg1 arg2 arg3 ++ endl
  = index_range_plain arg1 arg2 arg3.
Proof.
  intros ne. unfold index_range_outsequence, index_range_plain.
  apply Z.eqb_neq in ne. now rewrite ne.
Qed.

Lemma outsequence_clarification_iff (arg1 arg2 arg3 : Z) :
  contains ("    " ++ index_range_outsequence arg1 arg2 arg3 ++ endl)
           empty_range_clarification
  <-> arg2 = arg3.
Proof.
  split.
  - intros C. destruct (Z.eq_dec arg2 arg3) as [e | ne]; [exact e |].
    rewrite (outsequence_nonempty _ _ _ ne) in C.
    now apply plain_has_no_clarification in C.
  - intros ->. apply outsequence_empty.
Qed.

(** C6. The explanation [ExcIndexRange(index, lower, upper)] and
    [ExcIndexRangeType<T>(index, lower, upper)] render contains the
    empty-range clarification if and only if [lower == upper]; when
    [lower < upper] the explanation is exactly the statement that the
    index is not in the half-open range [[lower,upper)], without the
    clarification. *)
Theorem index_range_clarification (T : int_type) (index lower upper : Z) :
  (contains (print_info (ExcIndexRange index lower upper))
            empty_range_clarification <-> lower = upper)
  /\ (contains (print_info (ExcIndexRangeType T index lower upper))
               empty_range_clarification <-> lower = upper)
  /\ (lower < upper ->
      print_info (ExcIndexRange index lower upper)
        = index_range_plain index lower upper
      /\ print_info (ExcIndexRangeType T index lower upper)
        = index_range_plain index lower upper
      /\ ~ contains (index_range_plain index lower upper)
                    empty_range_clarification).
Proof.
  split; [| split].
  - apply outsequence_clarification_iff.
  - apply outsequence_clarification_iff.
  - intros lt. assert (ne : lower <> upper) by lia.
    cbn [print_info]. rewrite (outsequence_nonempty _ _ _ ne).
    repeat split. apply plain_has_no_clarification.
Qed.

(** The instance [ExcIndexRange(7, 0, 5)] and the empty range
    [ExcIndexRange(0, 0, 0)]. *)
Lemma index_range_clarification_witness :
  (0 < 5
   /\ print_info (ExcIndexRange 7 0 5)
      = "    Index 7 is not in the half-open range [0,5)." ++ endl)
  /\ contains (print_info (ExcIndexRange 0 0 0)) empty_range_clarification.
Proof.
  split.
  - split; [lia |].
    exact (proj1 (proj2 (proj2 (index_range_clarification size_t 7 0 5))
                   ltac:(lia))).
  - exact (proj2 (proj1 (index_range_clarification size_t 0 0 0)) eq_refl).
Defined.

End IndexRange.

(* ===================================================================== *)
(** * Running the dispatcher *)
(* ===================================================================== *)

Section Dispatch.

Variables (f : string) (l : Z) (fn : string) (c n : option string).
Variable e : ExceptionBase.
Variable w : World.

Let e' := populated w f l fn c n e.
Let w' := log (CallSetFields f l fn c n) w.

Lemma run_set_fields :
  set_fields e f l fn c n w = (Normal e', w').
Proof. reflexivity. Qed.

Lemma populated_location : carries_location e' f l fn c n.
Proof. repeat split. Qed.

Lemma populated_derived : derived e' = derived e.
Proof. reflexivity. Qed.

Lemma populated_what_str : what_str e' = what_str e.
Proof. reflexivity. Qed.

Lemma run_abort (x : ExceptionBase) (v : World) :
  abort x v = (Aborted, abort_world x v).
Proof.
  unfold abort_world, abort, bind, read, emit, std_abort; simpl.
  destruct (additional_assert_output v); reflexivity.
Qed.

Lemma trace_abort_world (x : ExceptionBase) (v : World) :
  trace (abort_world x v)
  = (trace v ++ abort_report x v)%list.
Proof.
  unfold abort_report, abort_world, abort, bind, read, emit, std_abort; simpl.
  destruct (additional_assert_output v); simpl;
    [now rewrite <- app_assoc | reflexivity].
Qed.

Lemma flag_abort_world (x : ExceptionBase) (v : World) :
  allow_abort_on_exception (abort_world x v) = allow_abort_on_exception v.
Proof.
  unfold abort_world, abort, bind, read, emit, std_abort; simpl.
  destruct (additional_assert_output v); reflexivity.
Qed.

(** The three exits of [issue_error_noreturn], by the value of
    [handling] and, in the first case, of the policy flag. *)
Lemma run_issue_error_noreturn (handling : ExceptionHandling) :
  issue_error_noreturn handling f l fn c n e w
  = if handling =? abort_or_throw_on_exception then
      if allow_abort_on_exception w
      then (Aborted, abort_world e' w')
      else (Thrown e', w')
    else if handling =? throw_on_exception then (Thrown e', w')
    else (Thrown (construct (ExcInternalError ExcInternalError_defaulttext)), w').
Proof.
  unfold issue_error_noreturn, bind. rewrite run_set_fields.
  destruct (handling =? abort_or_throw_on_exception).
  - unfold read. change (allow_abort_on_exception w') with (allow_abort_on_exception w).
    destruct (allow_abort_on_exception w).
    + now rewrite run_abort.
    + reflexivity.
  - destruct (handling =? throw_on_exception); reflexivity.
Qed.

Lemma run_issue_error_nothrow :
  issue_error_nothrow f l fn c n e w
  = if allow_abort_on_exception w
    then (Aborted, abort_world e' w')
    else (Normal tt, log (WriteDeallog (fst (what e') ++ endl)) w').
Proof.
  unfold issue_error_nothrow, do_issue_error_nothrow, bind.
  rewrite run_set_fields. unfold read.
  change (allow_abort_on_exception w') with (allow_abort_on_exception w).
  destruct (allow_abort_on_exception w).
  - now rewrite run_abort.
  - reflexivity.
Qed.

End Dispatch.

Lemma events_of_app {A : Type} (c : M A) (w : World) (evs : list event) :
  trace (snd (c w)) = (trace w ++ evs)%list -> events_of c w = evs.
Proof.
  intros H. unfold events_of. rewrite H.
  rewrite skipn_app, skipn_all, Nat.sub_diag. reflexivity.
Qed.

Section DispatchEvents.

Variables (f : string) (l : Z) (fn : string) (c n : option string).
Variable e : ExceptionBase.
Variable w : World.

Let e' := populated w f l fn c n e.

Lemma events_issue_error_noreturn (handling : ExceptionHandling) :
  events_of (issue_error_noreturn handling f l fn c n e) w
  = CallSetFields f l fn c n
    :: (if (handling =? abort_or_throw_on_exception)
           && allow_abort_on_exception w
        then abort_report e' w else []).
Proof.
  apply events_of_app. rewrite run_issue_error_noreturn.
  destruct (handling =? abort_or_throw_on_exception); simpl.
  - destruct (allow_abort_on_exception w); simpl; [| reflexivity].
    rewrite trace_abort_world. simpl. now rewrite <- app_assoc.
  - destruct (handling =? throw_on_exception); reflexivity.
Qed.

Lemma events_issue_error_nothrow :
  events_of (issue_error_nothrow f l fn c n e) w
  = CallSetFields f l fn c n
    :: (if allow_abort_on_exception w
        then abort_report e' w
        else [WriteDeallog (fst (what e') ++ endl)]).
Proof.
  apply events_of_app. rewrite run_issue_error_nothrow.
  destruct (allow_abort_on_exception w); simpl.
  - rewrite trace_abort_world. simpl. now rewrite <- app_assoc.
  - now rewrite <- app_assoc.
Qed.

Lemma abort_report_no_set_fields (x : ExceptionBase) (v : World) :
  count_set_fields (abort_report x v) = 0%nat.
Proof.
  unfold abort_report. destruct (additional_assert_output v); reflexivity.
Qed.

End DispatchEvents.

(** C4. In both entry points of the dispatcher [set_fields(file, line,
    function, cond, exc_name)] is called exactly once, and it is the first
    thing that happens, whatever the handling mode and the policy: before
    anything is thrown, printed or logged. The object that is then thrown,
    printed by the abort, or logged is the one carrying that location. *)
Theorem set_fields_once_before_dispatch
    (handling : ExceptionHandling) (f : string) (l : Z) (fn : string)
    (c n : option string) (e : ExceptionBase) (w : World) :
  let noreturn := issue_error_noreturn handling f l fn c n e in
  let nothrow := issue_error_nothrow f l fn c n e in
  hd_error (events_of noreturn w) = Some (CallSetFields f l fn c n)
  /\ count_set_fields (events_of noreturn w) = 1%nat
  /\ hd_error (events_of nothrow w) = Some (CallSetFields f l fn c n)
  /\ count_set_fields (events_of nothrow w) = 1%nat
  /\ exists e', carries_location e' f l fn c n
       /\ derived e' = derived e
       /\ (handling = abort_or_throw_on_exception
           \/ handling = throw_on_exception ->
           fst (noreturn w) = Thrown e'
           \/ (fst (noreturn w) = Aborted
               /\ In (WriteCerr (fst (what e') ++ endl)) (events_of noreturn w)))
       /\ ((fst (nothrow w) = Normal tt
            /\ In (WriteDeallog (fst (what e') ++ endl)) (events_of nothrow w))
           \/ (fst (nothrow w) = Aborted
               /\ In (WriteCerr (fst (what e') ++ endl)) (events_of nothrow w))).
Proof.
  intros noreturn nothrow. subst noreturn nothrow.
  rewrite events_issue_error_noreturn, events_issue_error_nothrow.
  rewrite run_issue_error_noreturn, run_issue_error_nothrow.
  set (e' := populated w f l fn c n e).
  repeat split.
  - unfold count_set_fields. cbn [filter is_set_fields length]. f_equal.
    destruct ((handling =? abort_or_throw_on_exception)
              && allow_abort_on_exception w); [| reflexivity].
    apply abort_report_no_set_fields.
  - unfold count_set_fields. cbn [filter is_set_fields length]. f_equal.
    destruct (allow_abort_on_exception w); [| reflexivity].
    apply abort_report_no_set_fields.
  - exists e'. split; [apply populated_location |].
    split; [apply populated_derived |]. split.
    + intros [-> | ->]; simpl.
      * destruct (allow_abort_on_exception w); simpl; [right | left]; auto.
      * left; reflexivity.
    + destruct (allow_abort_on_exception w); simpl; [right | left]; auto.
Qed.

(** A check at line 45 with the handling value 0 in the initial process. *)
Lemma set_fields_once_before_dispatch_witness :
  let w := initial_world [] in
  let x := construct ExcNotInitialized in
  exists e',
    carries_location e' "a.cc" 45 "int main()" (Some "x > 0") (Some "ExcNotInitialized()")
    /\ fst (issue_error_noreturn abort_or_throw_on_exception
              "a.cc" 45 "int main()" (Some "x > 0") (Some "ExcNotInitialized()") x w)
       = Aborted.
Proof.
  intros w x.
  destruct (set_fields_once_before_dispatch abort_or_throw_on_exception
              "a.cc" 45 "int main()" (Some "x > 0") (Some "ExcNotInitialized()") x w)
    as (_ & _ & _ & _ & e' & Hloc & _ & Hrun & _).
  exists e'. split; [exact Hloc |].
  destruct (Hrun (or_introl eq_refl)) as [H | [H _]]; [discriminate H | exact H].
Defined.

(* ===================================================================== *)
(** * The handling modes and the policy flag *)
(* ===================================================================== *)

(** C3. A check dispatched with [throw_on_exception] does not depend on
    [allow_abort_on_exception]: run with the flag set to [b1] and with the
    flag set to [b2], it throws the same exception object and adds the
    same events, and leaves the flag as it found it. *)
Theorem throw_on_exception_ignores_flag
    (b1 b2 : bool) (f : string) (l : Z) (fn : string)
    (c n : option string) (e : ExceptionBase) (w : World) :
  let run := issue_error_noreturn throw_on_exception f l fn c n e in
  let r1 := run (set_allow_abort b1 w) in
  let r2 := run (set_allow_abort b2 w) in
  fst r1 = Thrown (populated w f l fn c n e)
  /\ fst r2 = fst r1
  /\ trace (snd r2) = trace (snd r1)
  /\ events_of run (set_allow_abort b1 w) = [CallSetFields f l fn c n]
  /\ allow_abort_on_exception (snd r1) = b1
  /\ allow_abort_on_exception (snd r2) = b2.
Proof.
  intros run r1 r2. subst run r1 r2.
  rewrite events_issue_error_noreturn, !run_issue_error_noreturn.
  repeat split.
Qed.

(** C5. With a handling value that is neither enumerator,
    [issue_error_noreturn] throws [ExcInternalError()]; and with no
    handling value at all does it return to its caller. *)
Theorem malformed_handling_throws_internal_error
    (handling : ExceptionHandling) (f : string) (l : Z) (fn : string)
    (c n : option string) (e : ExceptionBase) (w : World) :
  (handling <> abort_or_throw_on_exception ->
   handling <> throw_on_exception ->
   fst (issue_error_noreturn handling f l fn c n e w)
   = Thrown (construct (ExcInternalError ExcInternalError_defaulttext)))
  /\ (forall r : unit,
        fst (issue_error_noreturn handling f l fn c n e w) <> Normal r)
  /\ triggers_failure (issue_error_noreturn handling f l fn c n e) w = true.
Proof.
  unfold triggers_failure. rewrite run_issue_error_noreturn. split; [| split].
  - intros n0 n1. apply Z.eqb_neq in n0, n1. now rewrite n0, n1.
  - intros r.
    destruct (handling =? abort_or_throw_on_exception);
      [destruct (allow_abort_on_exception w) |
       destruct (handling =? throw_on_exception)]; discriminate.
  - destruct (handling =? abort_or_throw_on_exception);
      [destruct (allow_abort_on_exception w) |
       destruct (handling =? throw_on_exception)]; reflexivity.
Qed.

(** The handling value 2, which no enumerator has. *)
Lemma malformed_handling_throws_internal_error_witness :
  fst (issue_error_noreturn 2 "a.cc" 7 "void f()" (Some "p") (Some "ExcNotInitialized()")
         (construct ExcNotInitialized) (initial_world []))
  = Thrown (construct (ExcInternalError ExcInternalError_defaulttext)).
Proof.
  apply (proj1 (malformed_handling_throws_internal_error 2 "a.cc" 7 "void f()"
                  (Some "p") (Some "ExcNotInitialized()")
                  (construct ExcNotInitialized) (initial_world [])));
    unfold abort_or_throw_on_exception, throw_on_exception; lia.
Defined.

Lemma run_toggles_last (ts : list toggle) (t : toggle) (w : World) :
  run_toggles (ts ++ [t]) w
  = (Normal tt,
     set_allow_abort (match t with Disable => false | Enable => true end) w).
Proof.
  revert w; induction ts as [|a ts IH]; intros w.
  - destruct t; reflexivity.
  - change (run_toggles ((a :: ts) ++ [t]) w)
      with (bind (run_toggle a) (fun _ => run_toggles (ts ++ [t])) w).
    unfold bind. destruct a; cbn [run_toggle];
      unfold disable_abort_on_exception, enable_abort_on_exception;
      cbv beta iota; rewrite IH; reflexivity.
Qed.

(** C2. A failing check dispatched in abort-or-throw mode follows the last
    toggle performed: after any sequence of toggles that ends with
    [disable_abort_on_exception()] it throws the populated exception,
    which a handler catches; after any sequence that ends with
    [enable_abort_on_exception()], and in the initial process, it aborts,
    and no handler runs. In no process does it return to its caller. The
    failing [Assert] of a DEBUG build and [DEAL_II_NOT_IMPLEMENTED()] are
    such checks. *)
Theorem abort_or_throw_follows_last_toggle
    (ts : list toggle) (f : string) (l : Z) (fn : string)
    (c n : option string) (x : ExceptionBase) (w : World) :
  let check := issue_error_noreturn abort_or_throw_on_exception f l fn c n x in
  let thrown v := populated v f l fn c n x in
  (forall handler : ExceptionBase -> M unit,
     let w1 := snd (run_toggles (ts ++ [Disable]) w) in
     fst (check w1) = Thrown (thrown w1)
     /\ try_catch check handler w1
        = handler (thrown w1) (log (CallSetFields f l fn c n) w1))
  /\ (forall handler : ExceptionBase -> M unit,
        let w1 := snd (run_toggles (ts ++ [Enable]) w) in
        fst (check w1) = Aborted
        /\ fst (try_catch check handler w1) = Aborted)
  /\ (forall frames, fst (check (initial_world frames)) = Aborted)
  /\ (forall r : unit, fst (check w) <> Normal r)
  /\ fst (check w)
     = (if allow_abort_on_exception w then Aborted else Thrown (thrown w))
  /\ (forall (site : call_site) (ct et : string),
        Assert true site false ct et x
        = issue_error_noreturn abort_or_throw_on_exception
            (FILE site) (LINE site) (PRETTY_FUNCTION site) (Some ct) (Some et) x)
  /\ (forall site : call_site,
        DEAL_II_NOT_IMPLEMENTED site
        = issue_error_noreturn abort_or_throw_on_exception
            (FILE site) (LINE site) (PRETTY_FUNCTION site) None None
            (construct (ExcNotImplemented ExcNotImplemented_defaulttext))).
Proof.
  intros check thrown. subst check thrown. cbv beta.
  split; [| split; [| split; [| split; [| split; [| split]]]]].
  - intros handler w1. subst w1. unfold try_catch.
    rewrite run_toggles_last, run_issue_error_noreturn. split; reflexivity.
  - intros handler w1. subst w1. unfold try_catch.
    rewrite run_toggles_last, run_issue_error_noreturn. split; reflexivity.
  - intros frames. rewrite run_issue_error_noreturn. reflexivity.
  - intros r. rewrite run_issue_error_noreturn.
    cbn [abort_or_throw_on_exception Z.eqb].
    destruct (allow_abort_on_exception w); discriminate.
  - rewrite run_issue_error_noreturn.
    cbn [abort_or_throw_on_exception Z.eqb].
    destruct (allow_abort_on_exception w); reflexivity.
  - reflexivity.
  - reflexivity.
Qed.

(** C7, as the code has it. A check dispatched in log-only mode never
    propagates an exception. With [allow_abort_on_exception] cleared, a
    false condition records the location, writes the rendered diagnostic
    to [deallog] and returns normally, so execution continues past the
    check; with the flag set it behaves as [Assert] does and aborts. A
    true condition performs no dispatch and writes nothing. *)
Theorem log_only_returns_when_abort_disabled
    (DEBUG : bool) (site : call_site) (cond : bool) (ct et : string)
    (x : ExceptionBase) (w : World) :
  let f := FILE site in
  let l := LINE site in
  let fn := PRETTY_FUNCTION site in
  let e' := populated w f l fn (Some ct) (Some et) x in
  (forall thrown,
     fst (AssertNothrow DEBUG site cond ct et x w) <> Thrown thrown
     /\ fst (issue_error_nothrow f l fn (Some ct) (Some et) x w) <> Thrown thrown)
  /\ issue_error_nothrow f l fn (Some ct) (Some et) x w
     = (if allow_abort_on_exception w
        then (Aborted, abort_world e' (log (CallSetFields f l fn (Some ct) (Some et)) w))
        else (Normal tt,
              log (WriteDeallog (fst (what e') ++ endl))
                (log (CallSetFields f l fn (Some ct) (Some et)) w)))
  /\ AssertNothrow true site false ct et x w
     = issue_error_nothrow f l fn (Some ct) (Some et) x w
  /\ AssertNothrow DEBUG site true ct et x w = (Normal tt, w)
  /\ events_of (AssertNothrow DEBUG site true ct et x) w = []
  /\ AssertNothrow false site cond ct et x w = (Normal tt, w).
Proof.
  intros f l fn e'. subst f l fn e'.
  split; [| split; [| split; [| split; [| split]]]].
  - intros thrown. split.
    + destruct DEBUG, cond; cbn [AssertNothrow negb]; try discriminate.
      rewrite run_issue_error_nothrow.
      destruct (allow_abort_on_exception w); discriminate.
    + rewrite run_issue_error_nothrow.
      destruct (allow_abort_on_exception w); discriminate.
  - apply run_issue_error_nothrow.
  - reflexivity.
  - destruct DEBUG; reflexivity.
  - apply events_of_app. destruct DEBUG; cbn; now rewrite app_nil_r.
  - reflexivity.
Qed.

(** C7 as stated fails in the process as it starts: the failing log-only
    check does not return to its caller but aborts. *)
Lemma log_only_aborts_by_default :
  let check :=
    AssertNothrow true {| FILE := "a.cc"; LINE := 7; PRETTY_FUNCTION := "void f()" |}
      false "x > 0" "ExcNotInitialized()" (construct ExcNotInitialized) in
  fst (check (initial_world [])) = Aborted
  /\ fst (check (initial_world [])) <> Normal tt.
Proof. split; [reflexivity | discriminate]. Qed.

(* ===================================================================== *)
(** * The rendered message *)
(* ===================================================================== *)

Ltac find_piece :=
  first [ apply contains_refl
        | apply contains_app_l; apply contains_refl
        | apply contains_app_r; find_piece ].

Lemma what_fresh (e : ExceptionBase) :
  what_str e = "" ->
  what e = (what_str (generate_message e), generate_message e).
Proof. intros H. unfold what. now rewrite H. Qed.

Lemma generated_contains (e : ExceptionBase) (x : string) :
  contains (print_exc_data e) x ->
  contains (what_str (generate_message e)) x.
Proof.
  intros H. cbn [generate_message set_what_str what_str].
  do 3 apply contains_app_r. now apply contains_app_l.
Qed.

Lemma generated_contains_info (e : ExceptionBase) (x : string) :
  contains (print_info (derived e)) x ->
  contains (what_str (generate_message e)) x.
Proof.
  intros H. cbn [generate_message set_what_str what_str].
  do 4 apply contains_app_r. now apply contains_app_l.
Qed.

Lemma print_exc_data_file (e : ExceptionBase) :
  contains (print_exc_data e) (file e).
Proof. unfold print_exc_data. find_piece. Qed.

Lemma print_exc_data_line (e : ExceptionBase) :
  contains (print_exc_data e) (show_Z (line e)).
Proof. unfold print_exc_data. find_piece. Qed.

Lemma print_exc_data_cond (e : ExceptionBase) (c : string) :
  cond e = Some c -> contains (print_exc_data e) c.
Proof.
  intros H. unfold print_exc_data. rewrite H.
  do 9 apply contains_app_r. apply contains_app_l. find_piece.
Qed.

Lemma cast_line (l : Z) : 1 <= l <= 2147483647 -> cast unsigned_int_t l = l.
Proof.
  intros H. unfold cast. cbn [is_signed unsigned_int_t andb].
  apply Z.mod_small. cbn. lia.
Qed.

(** C1. A check in throw-always mode whose condition is false throws the
    exception object supplied at the call site, with its dynamic kind and
    members, and the message rendered from the thrown object contains the
    file name, the line number and the condition text; a check whose
    condition is true returns normally and changes nothing. The supplied
    object is one that has not been rendered before the check, as an
    object constructed at the call site is. *)
Theorem AssertThrow_throws_supplied_kind
    (site : call_site) (cond : bool) (ct et : string)
    (x : ExceptionBase) (w : World) :
  valid_site site ->
  what_str x = "" ->
  if cond then AssertThrow site cond ct et x w = (Normal tt, w)
  else exists thrown,
      fst (AssertThrow site cond ct et x w) = Thrown thrown
      /\ derived thrown = derived x
      /\ contains (fst (what thrown)) (FILE site)
      /\ contains (fst (what thrown)) (show_Z (LINE site))
      /\ contains (fst (what thrown)) ct.
Proof.
  intros Hsite Hfresh. destruct cond; [reflexivity |].
  cbn [AssertThrow negb]. rewrite run_issue_error_noreturn.
  cbn [throw_on_exception abort_or_throw_on_exception Z.eqb Pos.eqb fst].
  set (e' := populated w (FILE site) (LINE site) (PRETTY_FUNCTION site)
               (Some ct) (Some et) x).
  exists e'. split; [reflexivity |]. split; [reflexivity |].
  rewrite (what_fresh e') by exact Hfresh. cbn [fst].
  split; [| split]; apply generated_contains.
  - apply (print_exc_data_file e').
  - rewrite <- (cast_line (LINE site) Hsite) at 1.
    apply (print_exc_data_line e').
  - now apply print_exc_data_cond.
Qed.

(** The check [AssertThrow(n >= 1, ExcLowerRange(n, 1))] at line 12 of
    solver.cc, with [n = 0]. *)
Lemma AssertThrow_throws_supplied_kind_witness :
  let site := {| FILE := "solver.cc"; LINE := 12; PRETTY_FUNCTION := "void solve(int)" |} in
  let x := construct (ExcLowerRange 0 1) in
  exists thrown,
    fst (AssertThrow site false "n >= 1" "ExcLowerRange(n, 1)" x (initial_world []))
    = Thrown thrown
    /\ derived thrown = ExcLowerRange 0 1
    /\ contains (fst (what thrown)) "solver.cc"
    /\ contains (fst (what thrown)) "12"
    /\ contains (fst (what thrown)) "n >= 1".
Proof.
  intros site x.
  apply (AssertThrow_throws_supplied_kind site false "n >= 1"
           "ExcLowerRange(n, 1)" x (initial_world [])).
  - unfold valid_site; simpl; lia.
  - reflexivity.
Defined.

Lemma generated_not_empty (e : ExceptionBase) :
  string_empty (what_str (generate_message e)) = false.
Proof. reflexivity. Qed.

Lemma string_empty_false (s : string) : string_empty s = false -> s <> "".
Proof. destruct s; [discriminate | intros _; discriminate]. Qed.

Lemma what_cached (e : ExceptionBase) :
  string_empty (what_str e) = false -> what e = (what_str e, e).
Proof. intros H. unfold what. now rewrite H. Qed.

(** C8. Asking an exception object for its message is idempotent and
    always answers: [what()] is a total function of the object, its first
    call yields a non-empty text and leaves it cached in the object, and a
    second call on that object yields the identical text and leaves the
    object as it is. This holds at a handler as well, after the dispatcher
    that threw the object has been left: both calls there give the text of
    the populated object. *)
Theorem what_is_idempotent
    (e : ExceptionBase) (site : call_site) (ct et : string) (w : World) :
  (exists s e1,
     what e = (s, e1)
     /\ what e1 = (s, e1)
     /\ what_str e1 = s
     /\ s <> "")
  /\ (let thrown :=
        populated w (FILE site) (LINE site) (PRETTY_FUNCTION site)
          (Some ct) (Some et) e in
      fst (try_catch (AssertThrow site false ct et e ;; ret None)
             (fun caught => ret (Some (describe_twice caught))) w)
      = Normal (Some (fst (what thrown), fst (what thrown)))).
Proof.
  assert (twice : forall x : ExceptionBase,
             exists s e1, what x = (s, e1) /\ what e1 = (s, e1)
                          /\ what_str e1 = s /\ s <> "").
  { intros x. destruct (string_empty (what_str x)) eqn:E.
    - exists (what_str (generate_message x)), (generate_message x).
      unfold what at 1. rewrite E.
      split; [reflexivity | split; [| split; [reflexivity |]]].
      + apply what_cached, generated_not_empty.
      + apply string_empty_false, generated_not_empty.
    - exists (what_str x), x. rewrite (what_cached x E).
      split; [reflexivity | split; [reflexivity | split; [reflexivity |]]].
      now apply string_empty_false. }
  split; [apply twice |].
  cbv zeta. unfold try_catch, bind.
  cbn [AssertThrow negb]. rewrite run_issue_error_noreturn.
  cbn [throw_on_exception abort_or_throw_on_exception Z.eqb Pos.eqb].
  unfold ret, describe_twice. cbn [fst].
  destruct (twice (populated w (FILE site) (LINE site) (PRETTY_FUNCTION site)
                     (Some ct) (Some et) e)) as (s & e1 & H1 & H2 & _).
  rewrite H1, H2. reflexivity.
Qed.

(* ===================================================================== *)
(** * tests/lac/trace.cc *)
(* ===================================================================== *)

Lemma flag_log (ev : event) (w : World) :
  allow_abort_on_exception (log ev w) = allow_abort_on_exception w.
Proof. reflexivity. Qed.

Lemma trace_value : FullMatrix_trace (fst (fill_and_sum 20)) = 380%float.
Proof. vm_compute. reflexivity. Qed.

Lemma tr_value : snd (fill_and_sum 20) = 380%float.
Proof. vm_compute. reflexivity. Qed.

Lemma run_check_trace_failing (m : FullMatrix) (tr : float) (w : World) :
  (FullMatrix_trace m =? tr)%float = false ->
  let w1 := log (WriteDeallog ("Trace=" ++ show_double_fixed0 (FullMatrix_trace m) ++ endl)) w in
  check_trace true m tr w
  = issue_error_noreturn abort_or_throw_on_exception
      (FILE trace_cc_site) (LINE trace_cc_site) (PRETTY_FUNCTION trace_cc_site)
      (Some "m.trace() == tr") (Some "ExcInternalError()")
      (construct (ExcInternalError ExcInternalError_defaulttext)) w1.
Proof.
  intros H. unfold check_trace, bind. cbn [emit]. rewrite H. reflexivity.
Qed.

(** C9, as the code has it. In trace.cc the 20 by 20 matrix has the
    entries [i+j], the accumulated sum of its diagonal and the library's
    [trace()] are both 380, so the condition of the [Assert] holds and
    [main] returns 0 having logged the trace and triggered no failure. If
    the two values were made to differ, the check would, in a DEBUG build,
    dispatch [ExcInternalError()]: it aborts, printing the rendered
    message, or throws once aborting is disabled. The rendered message of
    the dispatched object carries the stringified condition and the fixed
    default explanation of [ExcInternalError], and the outcome, with the
    object and so its message, is one and the same whatever the two
    differing values are. *)
Theorem trace_test_passes (DEBUG : bool) (w : World) :
  let m := fst (fill_and_sum 20) in
  let tr := snd (fill_and_sum 20) in
  entries_are_index_sums 20 m = true
  /\ tr = 380%float
  /\ FullMatrix_trace m = 380%float
  /\ (FullMatrix_trace m =? tr)%float = true
  /\ trace_cc_main DEBUG w = (Normal 0, log (WriteDeallog ("Trace=380" ++ endl)) w)
  /\ triggers_failure (check_trace DEBUG m tr) w = false
  /\ (forall (m' : FullMatrix) (tr' : float),
        (FullMatrix_trace m' =? tr')%float = false ->
        let thrown :=
          populated w (FILE trace_cc_site) (LINE trace_cc_site)
            (PRETTY_FUNCTION trace_cc_site)
            (Some "m.trace() == tr") (Some "ExcInternalError()")
            (construct (ExcInternalError ExcInternalError_defaulttext)) in
        fst (check_trace true m' tr' w)
        = (if allow_abort_on_exception w then Aborted else Thrown thrown)
        /\ derived thrown = ExcInternalError ExcInternalError_defaulttext
        /\ print_info (derived thrown)
           = "    " ++ ExcInternalError_defaulttext ++ endl
        /\ contains (fst (what thrown)) "m.trace() == tr"
        /\ contains (fst (what thrown)) (print_info (derived thrown))
        /\ contains (fst (what thrown)) ExcInternalError_defaulttext
        /\ (allow_abort_on_exception w = true ->
            In (WriteCerr (fst (what thrown) ++ endl))
               (events_of (check_trace true m' tr') w))
        /\ (forall (m'' : FullMatrix) (tr'' : float),
              (FullMatrix_trace m'' =? tr'')%float = false ->
              fst (check_trace true m'' tr'' w) = fst (check_trace true m' tr' w))).
Proof.
  intros m tr. subst m tr.
  assert (Hmain : forall D, check_trace D (fst (fill_and_sum 20)) (snd (fill_and_sum 20)) w
                      = (Normal tt, log (WriteDeallog ("Trace=380" ++ endl)) w)).
  { intros D. unfold check_trace, bind. rewrite trace_value, tr_value.
    cbn [emit]. change (380 =? 380)%float with true.
    change (show_double_fixed0 380) with "380".
    destruct D; reflexivity. }
  assert (Hfail : forall (m' : FullMatrix) (tr' : float),
             (FullMatrix_trace m' =? tr')%float = false ->
             fst (check_trace true m' tr' w)
             = (if allow_abort_on_exception w then Aborted
                else Thrown (populated w (FILE trace_cc_site) (LINE trace_cc_site)
                               (PRETTY_FUNCTION trace_cc_site)
                               (Some "m.trace() == tr") (Some "ExcInternalError()")
                               (construct (ExcInternalError ExcInternalError_defaulttext))))).
  { intros m' tr' Hneq.
    rewrite (run_check_trace_failing m' tr' w Hneq). cbv zeta.
    rewrite run_issue_error_noreturn.
    cbn [abort_or_throw_on_exception Z.eqb]. rewrite flag_log.
    destruct (allow_abort_on_exception w); reflexivity. }
  split; [vm_compute; reflexivity |].
  split; [apply tr_value |].
  split; [apply trace_value |].
  split; [rewrite trace_value, tr_value; reflexivity |].
  split.
  { unfold trace_cc_main.
    rewrite (surjective_pairing (fill_and_sum 20)). unfold bind.
    now rewrite Hmain. }
  split; [unfold triggers_failure; now rewrite Hmain |].
  intros m' tr' Hneq thrown.
  split; [exact (Hfail m' tr' Hneq) |].
  split; [reflexivity |]. split; [reflexivity |].
  assert (Hwhat : fst (what thrown) = what_str (generate_message thrown))
    by (subst thrown; rewrite what_fresh by reflexivity; reflexivity).
  split; [rewrite Hwhat; apply generated_contains;
          now apply print_exc_data_cond |].
  split; [rewrite Hwhat; apply generated_contains_info; apply contains_refl |].
  split; [rewrite Hwhat; apply generated_contains_info;
          apply contains_app_r, contains_app_l, contains_refl |].
  split.
  - intros Hallow.
    rewrite (events_of_app (check_trace true m' tr') w
               ([WriteDeallog ("Trace=" ++ show_double_fixed0 (FullMatrix_trace m') ++ endl);
                 CallSetFields (FILE trace_cc_site) (LINE trace_cc_site)
                   (PRETTY_FUNCTION trace_cc_site)
                   (Some "m.trace() == tr") (Some "ExcInternalError()")]
                ++ abort_report thrown
                     (log (CallSetFields (FILE trace_cc_site) (LINE trace_cc_site)
                             (PRETTY_FUNCTION trace_cc_site)
                             (Some "m.trace() == tr") (Some "ExcInternalError()"))
                        (log (WriteDeallog ("Trace=" ++ show_double_fixed0
                                                          (FullMatrix_trace m') ++ endl)) w)))).
    + right. right. left. reflexivity.
    + rewrite (run_check_trace_failing m' tr' w Hneq). cbv zeta.
      rewrite run_issue_error_noreturn.
      cbn [abort_or_throw_on_exception Z.eqb]. rewrite flag_log, Hallow.
      cbn [snd]. rewrite trace_abort_world.
      cbn [log emit snd trace]. rewrite <- !app_assoc. reflexivity.
  - intros m'' tr'' Hneq'. now rewrite (Hfail m'' tr'' Hneq'), (Hfail m' tr' Hneq).
Qed.

(** The run of trace.cc in a DEBUG build, and the check with [tr] made
    381 once aborting has been disabled. *)
Lemma trace_test_passes_witness :
  trace_cc_main true (initial_world [])
  = (Normal 0, log (WriteDeallog ("Trace=380" ++ endl)) (initial_world []))
  /\ (exists thrown,
        fst (check_trace true (fst (fill_and_sum 20)) 381
               (set_allow_abort false (initial_world [])))
        = Thrown thrown
        /\ contains (fst (what thrown)) "m.trace() == tr"
        /\ contains (fst (what thrown)) ExcInternalError_defaulttext).
Proof.
  split.
  - exact (proj1 (proj2 (proj2 (proj2 (proj2
             (trace_test_passes true (initial_world []))))))).
  - destruct (trace_test_passes true (set_allow_abort false (initial_world [])))
      as (_ & _ & _ & _ & _ & _ & H).
    assert (Hneq : (FullMatrix_trace (fst (fill_and_sum 20)) =? 381)%float = false)
      by (vm_compute; reflexivity).
    destruct (H (fst (fill_and_sum 20)) 381%float Hneq)
      as (Hrun & _ & _ & Hc & _ & Hd & _).
    eexists. split; [exact Hrun | split; [exact Hc | exact Hd]].
Defined.

(** C9 as stated fails: with [tr] made 381 against the trace 380, the
    failure that the check triggers is an [ExcInternalError] whose rendered
    message contains neither of the two values. *)
Lemma trace_failure_message_lacks_values :
  let m := fst (fill_and_sum 20) in
  let w := set_allow_abort false (initial_world []) in
  exists thrown,
    fst (check_trace true m 381 w) = Thrown thrown
    /\ show_double_fixed0 (FullMatrix_trace m) = "380"
    /\ show_double_fixed0 381 = "381"
    /\ ~ contains (fst (what thrown)) (show_double_fixed0 (FullMatrix_trace m))
    /\ ~ contains (fst (what thrown)) (show_double_fixed0 381).
Proof.
  intros m w. eexists. split; [vm_compute; reflexivity |].
  split; [vm_compute; reflexivity |].
  split; [vm_compute; reflexivity |].
  split; apply not_contains; vm_compute; reflexivity.
Qed.

(* ===================================================================== *)
(** * AssertIndexRange *)
(* ===================================================================== *)

Section IndexRangeCheck.

Lemma Assert_triggers (DEBUG : bool) (site : call_site) (cond : bool)
    (ct et : string) (x : ExceptionBase) (w : World) :
  triggers_failure (Assert DEBUG site cond ct et x) w = DEBUG && negb cond.
Proof.
  unfold triggers_failure.
  destruct DEBUG, cond; cbn [Assert negb andb]; try reflexivity.
  rewrite run_issue_error_noreturn. cbn [abort_or_throw_on_exception Z.eqb].
  destruct (allow_abort_on_exception w); reflexivity.
Qed.

Lemma cast_signed_id (T : int_type) (v : Z) :
  is_signed T = true -> in_range T v -> cast T v = v.
Proof.
  unfold in_range, min_value, max_value, cast, width.
  destruct T as [s r]; cbn [is_signed rank]. intros -> H. cbn [andb].
  destruct r; cbn in H |- *;
    match goal with
    | |- context [v mod ?m] =>
        destruct (Z.leb_spec 0 v) as [nonneg | neg];
        [ rewrite (Z.mod_small v m) by lia
        | replace (v mod m) with (v + m)
            by (rewrite <- (Z_mod_plus_full v 1 m), Z.mod_small; lia) ]
    end;
    match goal with
    | |- context [?a <=? ?b] => destruct (Z.leb_spec a b); lia
    end.
Qed.

Lemma cast_unsigned_id (T : int_type) (v : Z) :
  is_signed T = false -> 0 <= v < 2 ^ width T -> cast T v = v.
Proof.
  unfold cast. intros -> H. cbn [andb]. now apply Z.mod_small.
Qed.

Lemma cast_unsigned_neg (T : int_type) (v : Z) :
  is_signed T = false -> - 2 ^ width T <= v < 0 ->
  cast T v = 2 ^ width T + v.
Proof.
  unfold cast. intros -> H. cbn [andb].
  rewrite <- (Z_mod_plus_full v 1 (2 ^ width T)). rewrite Z.mod_small; lia.
Qed.

Ltac range_facts :=
  unfold in_range, min_value, max_value, width in *;
  cbn [is_signed rank rank_width] in *.

(** Two signed operands keep their values in the common type. *)
Lemma signed_signed_compare (T U : int_type) (index range : Z) :
  is_signed T = true -> is_signed U = true ->
  in_range T index -> in_range U range ->
  compare_less_than T U index range = (index <? range).
Proof.
  destruct T as [s1 r1], U as [s2 r2]; cbn [is_signed]. intros -> -> Hi Hr.
  unfold compare_less_than.
  destruct r1, r2;
    match goal with
    | |- context [common_type ?A ?B] =>
        let C := eval vm_compute in (common_type A B) in
        change (common_type A B) with C
    end; cbv zeta;
    rewrite !cast_signed_id; try reflexivity; range_facts; cbn in *; lia.
Qed.

(** A negative signed index against an unsigned range: the comparison in
    the common type. *)
Lemma signed_unsigned_compare (T U : int_type) (index range : Z) :
  is_signed T = true -> is_signed U = false ->
  in_range T index -> in_range U range -> index < 0 ->
  let common := common_type T U in
  compare_less_than T U index range
  = if is_signed common then true
    else 2 ^ width common + index <? range.
Proof.
  destruct T as [s1 r1], U as [s2 r2]; cbn [is_signed]. intros -> -> Hi Hr neg.
  unfold compare_less_than.
  destruct r1, r2;
    match goal with
    | |- context [common_type ?A ?B] =>
        let C := eval vm_compute in (common_type A B) in
        change (common_type A B) with C
    end; cbv zeta; cbn [is_signed];
    first
      [ rewrite !cast_signed_id by (try reflexivity; range_facts; cbn in *; lia);
        apply Z.ltb_lt; range_facts; cbn in *; lia
      | rewrite cast_unsigned_neg by (try reflexivity; range_facts; cbn in *; lia);
        rewrite cast_unsigned_id by (try reflexivity; range_facts; cbn in *; lia);
        reflexivity ].
Qed.

End IndexRangeCheck.

(** C10, as the code has it. In a DEBUG build [AssertIndexRange(index,
    range)] triggers a failure exactly when [index < range] is false after
    both operands are converted to their common type (and never in a build
    without DEBUG); there is no check of a lower bound. So for a negative
    signed index and a signed range with [index < range] the check passes
    although the index is outside [[0, range)]. A negative signed index
    against an unsigned range fails the check exactly when the common type
    is unsigned, of width [n] say, and [range <= 2^n + index]; this is so
    whenever the common type is unsigned and [range <= 2^(n-1)]. *)
Theorem AssertIndexRange_checks_only_less_than
    (DEBUG : bool) (site : call_site) (T U : int_type) (index range : Z)
    (it rt : string) (w : World) :
  let common := common_type T U in
  let check D := AssertIndexRange D site T U index range it rt in
  triggers_failure (check DEBUG) w
  = DEBUG && negb (cast common index <? cast common range)
  /\ (is_signed T = true -> is_signed U = true ->
      in_range T index -> in_range U range ->
      index < 0 -> index < range ->
      triggers_failure (check DEBUG) w = false /\ ~ (0 <= index < range))
  /\ (is_signed T = true -> is_signed U = false ->
      in_range T index -> in_range U range -> index < 0 ->
      (triggers_failure (check true) w = true
       <-> is_signed common = false /\ range <= 2 ^ width common + index)
      /\ (is_signed common = false -> range <= 2 ^ (width common - 1) ->
          triggers_failure (check true) w = true)).
Proof.
  intros common check. subst check. cbv beta.
  unfold AssertIndexRange. cbv zeta. rewrite !Assert_triggers.
  split; [reflexivity | split].
  - intros sT sU Hi Hr neg lt.
    rewrite (signed_signed_compare T U index range sT sU Hi Hr).
    apply Z.ltb_lt in lt. rewrite lt. split; [apply andb_false_r | lia].
  - intros sT sU Hi Hr neg.
    rewrite (signed_unsigned_compare T U index range sT sU Hi Hr neg).
    fold common. cbn [andb].
    assert (low : - 2 ^ (width common - 1) <= index).
    { subst common. destruct T as [s1 r1], U as [s2 r2]. cbn [is_signed] in *.
      subst. unfold in_range, min_value, max_value, width in Hi.
      cbn [is_signed rank] in Hi. destruct r1, r2; cbn in Hi |- *; lia. }
    assert (pow : 2 ^ width common = 2 * 2 ^ (width common - 1)).
    { rewrite <- Z.pow_succ_r; [f_equal; lia |].
      subst common. destruct T as [s1 r1], U as [s2 r2].
      destruct s1, s2, r1, r2; cbn; lia. }
    destruct (is_signed common); cbn [negb].
    + split; [split; [discriminate | intros [H _]; discriminate H] |].
      intros H; discriminate H.
    + destruct (Z.ltb_spec (2 ^ width common + index) range) as [lt | ge];
        cbn [negb].
      * split; [split; [discriminate | intros [_ H]; lia] | intros _ H; lia].
      * split; [split; [intros _; split; [reflexivity | lia] | reflexivity] |].
        reflexivity.
Qed.

(** The check [AssertIndexRange(i, n)] with [int i = -1] against
    [int n = 5], which passes, and against [unsigned int n = 5], which
    fails. *)
Lemma AssertIndexRange_checks_only_less_than_witness :
  triggers_failure
    (AssertIndexRange true trace_cc_site int_t int_t (-1) 5 "i" "n")
    (initial_world []) = false
  /\ triggers_failure
       (AssertIndexRange true trace_cc_site int_t unsigned_int_t (-1) 5 "i" "n")
       (initial_world []) = true.
Proof.
  split.
  - apply (proj1 (proj2 (AssertIndexRange_checks_only_less_than
                           true trace_cc_site int_t int_t (-1) 5 "i" "n"
                           (initial_world []))));
      try reflexivity; unfold in_range; cbn; lia.
  - apply (proj2 (proj2 (AssertIndexRange_checks_only_less_than
                           true trace_cc_site int_t unsigned_int_t (-1) 5 "i" "n"
                           (initial_world []))));
      try reflexivity; unfold in_range; cbn; lia.
Defined.

(** C10 as stated fails in its last part: a negative signed index against
    an unsigned range can pass the check. [int -2] against
    [unsigned int 4294967295] is converted to 4294967294, which is less;
    [long -1] against [unsigned int 5] is compared as [long]. *)
Lemma negative_index_passes_unsigned_range :
  (in_range int_t (-2) /\ in_range unsigned_int_t 4294967295
   /\ triggers_failure
        (AssertIndexRange true trace_cc_site int_t unsigned_int_t
           (-2) 4294967295 "i" "n")
        (initial_world []) = false)
  /\ (in_range long_t (-1) /\ in_range unsigned_int_t 5
      /\ common_type long_t unsigned_int_t = long_t
      /\ triggers_failure
           (AssertIndexRange true trace_cc_site long_t unsigned_int_t
              (-1) 5 "i" "n")
           (initial_world []) = false).
Proof.
  unfold in_range. cbn. repeat split; try lia; discriminate.
Qed.

(* ===================================================================== *)
(** * The comparison helpers on all operands *)
(* ===================================================================== *)

Ltac compute_common :=
  match goal with
  | |- context [common_type ?A ?B] =>
      let C := eval vm_compute in (common_type A B) in
      change (common_type A B) with C
  end.

Ltac bounds :=
  unfold in_range, min_value, max_value, width in *;
  cbn [is_signed rank rank_width] in *; cbn in *; lia.

Section ComparisonHelpers.

Lemma common_type_comm (T U : int_type) : common_type T U = common_type U T.
Proof.
  destruct T as [s1 r1], U as [s2 r2].
  destruct s1, s2, r1, r2; reflexivity.
Qed.

Lemma cast_in_range_id (T : int_type) (v : Z) : in_range T v -> cast T v = v.
Proof.
  intros H. destruct (is_signed T) eqn:sT.
  - now apply cast_signed_id.
  - apply cast_unsigned_id; [exact sT |].
    unfold in_range, min_value, max_value in H. rewrite sT in H. lia.
Qed.

(** Values that fit both operand types and the common type are not
    changed by the conversion. *)
Lemma common_type_keeps (T U : int_type) (t u : Z) :
  in_range T t -> in_range U u ->
  is_signed T = is_signed U \/ (0 <= t /\ 0 <= u) ->
  in_range (common_type T U) t /\ in_range (common_type T U) u.
Proof.
  destruct T as [s1 r1], U as [s2 r2]. cbn [is_signed].
  intros Ht Hu [same | [nt nu]].
  - subst s2. destruct s1, r1, r2; compute_common; split; bounds.
  - destruct s1, s2, r1, r2; compute_common; split; bounds.
Qed.

Lemma compare_for_equality_sym (T U : int_type) (t u : Z) :
  compare_for_equality T U t u = compare_for_equality U T u t.
Proof.
  unfold compare_for_equality. cbv zeta.
  rewrite (common_type_comm U T). apply Z.eqb_sym.
Qed.

(** X1. The two helpers decide one total order on the converted
    operands: equality is symmetric in its operands and their types, and
    [u < t] holds exactly when neither [t < u] nor [t == u] does; an
    operand equals itself and is not less than itself. This holds for all
    operand types and all values. *)
Theorem compare_helpers_trichotomy (T U : int_type) (t u : Z) :
  compare_for_equality T U t u = compare_for_equality U T u t
  /\ compare_less_than U T u t
     = negb (compare_less_than T U t u || compare_for_equality T U t u)
  /\ compare_for_equality T T t t = true
  /\ compare_less_than T T t t = false.
Proof.
  unfold compare_for_equality, compare_less_than. cbv zeta.
  rewrite (common_type_comm U T).
  set (a := cast (common_type T U) t). set (b := cast (common_type T U) u).
  repeat split.
  - apply Z.eqb_sym.
  - destruct (Z.ltb_spec b a), (Z.ltb_spec a b), (Z.eqb_spec a b);
      cbn; try reflexivity; lia.
  - apply Z.eqb_refl.
  - apply Z.ltb_irrefl.
Qed.

Lemma compare_helpers_exact_pair (T U : int_type) (t u : Z) :
  in_range T t -> in_range U u -> 0 <= t -> 0 <= u ->
  compare_for_equality T U t u = (t =? u).
Proof.
  intros Ht Hu nt nu.
  destruct (common_type_keeps T U t u Ht Hu (or_intror (conj nt nu))) as [Kt Ku].
  unfold compare_for_equality. cbv zeta.
  now rewrite (cast_in_range_id _ t Kt), (cast_in_range_id _ u Ku).
Qed.

Lemma compare_less_exact_pair (T U : int_type) (t u : Z) :
  in_range T t -> in_range U u -> 0 <= t -> 0 <= u ->
  compare_less_than T U t u = (t <? u).
Proof.
  intros Ht Hu nt nu.
  destruct (common_type_keeps T U t u Ht Hu (or_intror (conj nt nu))) as [Kt Ku].
  unfold compare_less_than. cbv zeta.
  now rewrite (cast_in_range_id _ t Kt), (cast_in_range_id _ u Ku).
Qed.

(** X2. On operands that are values of their types, the helpers give the
    mathematical answer whenever both types have the same signedness or
    both values are non-negative. *)
Theorem compare_helpers_exact (T U : int_type) (t u : Z) :
  in_range T t -> in_range U u ->
  is_signed T = is_signed U \/ (0 <= t /\ 0 <= u) ->
  compare_for_equality T U t u = (t =? u)
  /\ compare_less_than T U t u = (t <? u).
Proof.
  intros Ht Hu H.
  destruct (common_type_keeps T U t u Ht Hu H) as [Kt Ku].
  unfold compare_for_equality, compare_less_than. cbv zeta.
  rewrite (cast_in_range_id _ t Kt), (cast_in_range_id _ u Ku).
  split; reflexivity.
Qed.

(** [unsigned int 3] against [long 7], and [int -4] against [short -4]. *)
Lemma compare_helpers_exact_witness :
  (compare_for_equality unsigned_int_t long_t 3 7 = false
   /\ compare_less_than unsigned_int_t long_t 3 7 = true)
  /\ compare_for_equality int_t short_t (-4) (-4) = true.
Proof.
  split.
  - apply (compare_helpers_exact unsigned_int_t long_t 3 7);
      [unfold in_range; cbn; lia | unfold in_range; cbn; lia | right; lia].
  - apply (compare_helpers_exact int_t short_t (-4) (-4));
      [unfold in_range; cbn; lia | unfold in_range; cbn; lia | left; reflexivity].
Defined.

(** X3. A negative value of a signed type compares equal to a value of an
    unsigned type exactly when the common type is unsigned, of width [n]
    say, and the unsigned value is [2^n] plus the negative one; when the
    common type is signed the two are never equal. *)
Theorem negative_equals_wrapped_unsigned (T U : int_type) (t u : Z) :
  is_signed T = true -> is_signed U = false ->
  in_range T t -> in_range U u -> t < 0 ->
  let common := common_type T U in
  compare_for_equality T U t u
  = (if is_signed common then false else 2 ^ width common + t =? u)
  /\ compare_for_equality U T u t = compare_for_equality T U t u.
Proof.
  intros sT sU Ht Hu neg common. subst common.
  split; [| apply compare_for_equality_sym].
  destruct T as [s1 r1], U as [s2 r2]; cbn [is_signed] in sT, sU. subst.
  unfold compare_for_equality. cbv zeta.
  destruct r1, r2; compute_common; cbn [is_signed];
    first
      [ rewrite !cast_signed_id by (try reflexivity; bounds);
        apply Z.eqb_neq; bounds
      | rewrite cast_unsigned_neg by (try reflexivity; bounds);
        rewrite cast_unsigned_id by (try reflexivity; bounds);
        reflexivity ].
Qed.

(** [int -1] against [unsigned int 4294967295]: equal after conversion. *)
Lemma negative_equals_wrapped_unsigned_witness :
  compare_for_equality int_t unsigned_int_t (-1) 4294967295 = true.
Proof.
  rewrite (proj1 (negative_equals_wrapped_unsigned int_t unsigned_int_t (-1) 4294967295
             eq_refl eq_refl
             ltac:(unfold in_range; cbn; lia) ltac:(unfold in_range; cbn; lia)
             ltac:(lia))).
  reflexivity.
Defined.

End ComparisonHelpers.

(* ===================================================================== *)
(** * The checks built on the helpers *)
(* ===================================================================== *)

Section DerivedChecks.

Lemma run_Assert (DEBUG : bool) (site : call_site) (cond : bool)
    (ct et : string) (x : ExceptionBase) (w : World) :
  Assert DEBUG site cond ct et x w
  = if DEBUG && negb cond
    then issue_error_noreturn abort_or_throw_on_exception
           (FILE site) (LINE site) (PRETTY_FUNCTION site) (Some ct) (Some et) x w
    else (Normal tt, w).
Proof. destruct DEBUG, cond; reflexivity. Qed.

Lemma outcome_Assert (DEBUG : bool) (site : call_site) (cond : bool)
    (ct et : string) (x : ExceptionBase) (w : World) :
  fst (Assert DEBUG site cond ct et x w)
  = if DEBUG && negb cond
    then if allow_abort_on_exception w then Aborted
         else Thrown (populated w (FILE site) (LINE site) (PRETTY_FUNCTION site)
                        (Some ct) (Some et) x)
    else Normal tt.
Proof.
  rewrite run_Assert. destruct (DEBUG && negb cond); [| reflexivity].
  rewrite run_issue_error_noreturn. cbn [abort_or_throw_on_exception Z.eqb].
  destruct (allow_abort_on_exception w); reflexivity.
Qed.

Lemma thrown_by_Assert (DEBUG : bool) (site : call_site) (cond : bool)
    (ct et : string) (x : ExceptionBase) (w : World) (thrown : ExceptionBase) :
  fst (Assert DEBUG site cond ct et x w) = Thrown thrown ->
  derived thrown = derived x /\ cond = false.
Proof.
  rewrite outcome_Assert. destruct DEBUG, cond; cbn [andb negb]; try discriminate.
  destruct (allow_abort_on_exception w); [discriminate |].
  intros [= <-]. split; reflexivity.
Qed.

Lemma pow2_width (T : int_type) : 2 ^ width T = 2 * 2 ^ (width T - 1).
Proof. destruct T as [s r]; destruct r; reflexivity. Qed.

Lemma cast_lands_in_range (T : int_type) (v : Z) : in_range T (cast T v).
Proof.
  unfold in_range, min_value, max_value, cast.
  pose proof (pow2_width T) as P.
  assert (0 < 2 ^ (width T - 1)) by (destruct T as [s r]; destruct r; reflexivity).
  pose proof (Z.mod_pos_bound v (2 ^ width T) ltac:(lia)) as B.
  destruct (is_signed T); cbn [andb]; [| lia].
  destruct (Z.leb_spec (2 ^ (width T - 1)) (v mod 2 ^ width T)); lia.
Qed.

(** X4. [AssertDimension(dim1, dim2)] on sizes that are non-negative
    values of their types: in a DEBUG build it fails exactly when the two
    differ (and never without DEBUG); what it then aborts with or throws
    is [ExcDimensionMismatch(dim1, dim2)], whose explanation contains both
    sizes; when they agree the process is left as it was. *)
Theorem AssertDimension_reports_both_sizes
    (DEBUG : bool) (site : call_site) (T U : int_type) (dim1 dim2 : Z)
    (t1 t2 : string) (w : World) :
  in_range T dim1 -> in_range U dim2 -> 0 <= dim1 -> 0 <= dim2 ->
  let check := AssertDimension DEBUG site T U dim1 dim2 t1 t2 in
  (exists ct et,
     fst (check w)
     = if DEBUG && negb (dim1 =? dim2)
       then if allow_abort_on_exception w then Aborted
            else Thrown (populated w (FILE site) (LINE site) (PRETTY_FUNCTION site)
                           (Some ct) (Some et)
                           (construct (ExcDimensionMismatch dim1 dim2)))
       else Normal tt)
  /\ triggers_failure check w = DEBUG && negb (dim1 =? dim2)
  /\ (dim1 = dim2 -> check w = (Normal tt, w))
  /\ contains (print_info (ExcDimensionMismatch dim1 dim2)) (show_Z dim1)
  /\ contains (print_info (ExcDimensionMismatch dim1 dim2)) (show_Z dim2).
Proof.
  intros H1 H2 n1 n2 check. subst check. unfold AssertDimension.
  assert (E : compare_for_equality T U dim1 dim2 = (dim1 =? dim2))
    by (apply compare_helpers_exact_pair; auto).
  assert (C1 : cast size_t dim1 = dim1)
    by (apply cast_unsigned_id; [reflexivity |];
        destruct T as [s r]; destruct s, r; bounds).
  assert (C2 : cast size_t dim2 = dim2)
    by (apply cast_unsigned_id; [reflexivity |];
        destruct U as [s r]; destruct s, r; bounds).
  rewrite E, C1, C2. split; [| split; [| split; [| split]]].
  - eexists _, _. apply outcome_Assert.
  - apply Assert_triggers.
  - intros ->. rewrite run_Assert, Z.eqb_refl.
    destruct DEBUG; reflexivity.
  - cbn [print_info]. find_piece.
  - cbn [print_info]. find_piece.
Qed.

End DerivedChecks.

(** Three data sets attached where two are expected. *)
Lemma AssertDimension_reports_both_sizes_witness :
  triggers_failure
    (AssertDimension true trace_cc_site size_t unsigned_int_t 3 2
       "datasets.size()" "N")
    (initial_world []) = true
  /\ contains (print_info (ExcDimensionMismatch 3 2)) "3"
  /\ contains (print_info (ExcDimensionMismatch 3 2)) "2".
Proof.
  destruct (AssertDimension_reports_both_sizes true trace_cc_site
              size_t unsigned_int_t 3 2 "datasets.size()" "N" (initial_world [])
              ltac:(unfold in_range; cbn; lia) ltac:(unfold in_range; cbn; lia)
              ltac:(lia) ltac:(lia))
    as (_ & Htrig & _ & Hc1 & Hc2).
  split; [exact Htrig | split; [exact Hc1 | exact Hc2]].
Defined.

(** X5. [AssertIndexRange(index, range)] on operands that are
    non-negative values of their types is the bounds check it is meant to
    be: in a DEBUG build it fails exactly when [index] is outside
    [[0, range)], and what it aborts with or throws is
    [ExcIndexRangeType(index, 0, range)] of the common type. For the empty
    range it fails for every index, and the empty-range clarification is
    part of the explanation exactly then. *)
Theorem AssertIndexRange_is_bounds_check_on_nonnegative
    (DEBUG : bool) (site : call_site) (T U : int_type) (index range : Z)
    (it rt : string) (w : World) :
  in_range T index -> in_range U range -> 0 <= index -> 0 <= range ->
  let check := AssertIndexRange DEBUG site T U index range it rt in
  let kind := ExcIndexRangeType (common_type T U) index 0 range in
  (exists ct et,
     fst (check w)
     = if DEBUG && negb (index <? range)
       then if allow_abort_on_exception w then Aborted
            else Thrown (populated w (FILE site) (LINE site) (PRETTY_FUNCTION site)
                           (Some ct) (Some et) (construct kind))
       else Normal tt)
  /\ (triggers_failure check w = true <-> DEBUG = true /\ ~ (0 <= index < range))
  /\ (range = 0 -> triggers_failure check w = DEBUG)
  /\ (contains (print_info kind) empty_range_clarification <-> range = 0).
Proof.
  intros Hi Hr ni nr check kind. subst check kind. unfold AssertIndexRange.
  cbv zeta.
  rewrite (compare_less_exact_pair T U index range Hi Hr ni nr).
  destruct (common_type_keeps T U index range Hi Hr (or_intror (conj ni nr)))
    as [Ki Kr].
  rewrite (cast_in_range_id _ index Ki), (cast_in_range_id _ range Kr).
  split; [| split; [| split]].
  - eexists _, _. apply outcome_Assert.
  - rewrite Assert_triggers.
    destruct DEBUG; cbn [andb]; destruct (Z.ltb_spec index range); cbn [negb];
      split; try discriminate; try (intros [? ?]; try discriminate; lia);
      intros _; split; [reflexivity | lia].
  - intros ->. rewrite Assert_triggers.
    destruct (Z.ltb_spec index 0); [lia |]. apply andb_true_r.
  - cbn [print_info]. rewrite outsequence_clarification_iff.
    split; intros H; congruence.
Qed.

(** An access to entry 0 of an empty vector. *)
Lemma AssertIndexRange_is_bounds_check_on_nonnegative_witness :
  triggers_failure
    (AssertIndexRange true trace_cc_site unsigned_int_t size_t 0 0 "i" "v.size()")
    (initial_world []) = true
  /\ contains (print_info (ExcIndexRangeType size_t 0 0 0))
              empty_range_clarification.
Proof.
  destruct (AssertIndexRange_is_bounds_check_on_nonnegative true trace_cc_site
              unsigned_int_t size_t 0 0 "i" "v.size()" (initial_world [])
              ltac:(unfold in_range; cbn; lia) ltac:(unfold in_range; cbn; lia)
              ltac:(lia) ltac:(lia))
    as (_ & _ & Hempty & Hclar).
  split; [exact (Hempty eq_refl) | exact (proj2 Hclar eq_refl)].
Defined.

(** X6. What a failing check reports are the converted operands, never
    the operands as written: the exception thrown by [AssertDimension]
    carries two values of [std::size_t], and that thrown by
    [AssertIndexRange] three values of the common type, the lower bound
    being 0. A negative size is therefore reported as [2^64] plus its
    value, and a negative index, where the common type is unsigned of
    width [n], as [2^n] plus its value. *)
Theorem failing_checks_report_converted_operands
    (DEBUG : bool) (site : call_site) (T U : int_type) (a b : Z)
    (ta tb : string) (w : World) (thrown : ExceptionBase) :
  (fst (AssertDimension DEBUG site T U a b ta tb w) = Thrown thrown ->
   exists a' b',
     derived thrown = ExcDimensionMismatch a' b'
     /\ in_range size_t a' /\ in_range size_t b'
     /\ (in_range T a -> a < 0 -> a' = 2 ^ 64 + a))
  /\ (fst (AssertIndexRange DEBUG site T U a b ta tb w) = Thrown thrown ->
      let common := common_type T U in
      exists a' b',
        derived thrown = ExcIndexRangeType common a' 0 b'
        /\ in_range common a' /\ in_range common b'
        /\ ~ (a' < b')
        /\ (in_range T a -> a < 0 -> is_signed common = false ->
            a' = 2 ^ width common + a)).
Proof.
  split.
  - intros H. apply thrown_by_Assert in H. destruct H as [H _].
    exists (cast size_t a), (cast size_t b).
    split; [exact H |]. split; [apply cast_lands_in_range |].
    split; [apply cast_lands_in_range |].
    intros Ha neg. apply cast_unsigned_neg; [reflexivity |].
    destruct T as [s r]; destruct s, r; bounds.
  - intros H common. apply thrown_by_Assert in H. destruct H as [H Hc].
    exists (cast common a), (cast common b).
    split; [exact H |]. split; [apply cast_lands_in_range |].
    split; [apply cast_lands_in_range |].
    split.
    + unfold compare_less_than in Hc. cbv zeta in Hc. fold common in Hc.
      apply Z.ltb_ge in Hc. lia.
    + intros Ha neg uns. apply cast_unsigned_neg; [exact uns |].
      subst common. destruct T as [s1 r1], U as [s2 r2].
      destruct s1, s2, r1, r2; try discriminate uns; bounds.
Qed.

(** [AssertDimension(-1, 5)] with two [int]s, once aborting is disabled:
    the first size is reported as 18446744073709551615. *)
Lemma failing_checks_report_converted_operands_witness :
  let w := set_allow_abort false (initial_world []) in
  exists thrown a' b',
    fst (AssertDimension true trace_cc_site int_t int_t (-1) 5 "n" "m" w)
    = Thrown thrown
    /\ derived thrown = ExcDimensionMismatch a' b'
    /\ a' = 18446744073709551615.
Proof.
  intros w.
  eexists. 
  assert (Hrun : fst (AssertDimension true trace_cc_site int_t int_t (-1) 5 "n" "m" w)
                 = Thrown (populated w (FILE trace_cc_site) (LINE trace_cc_site)
                             (PRETTY_FUNCTION trace_cc_site)
                             (Some "::dealii::deal_II_exceptions::internals::compare_for_equality(n, m)")
                             (Some "dealii::ExcDimensionMismatch((n), (m))")
                             (construct (ExcDimensionMismatch (cast size_t (-1)) (cast size_t 5)))))
    by reflexivity.
  destruct (proj1 (failing_checks_report_converted_operands true trace_cc_site
                     int_t int_t (-1) 5 "n" "m" w _) Hrun)
    as (a' & b' & Hk & _ & _ & Hneg).
  exists a', b'. split; [exact Hrun | split; [exact Hk |]].
  apply Hneg; [unfold in_range; cbn; lia | lia].
Defined.

(* ===================================================================== *)
(** * The handling modes compared *)
(* ===================================================================== *)

Section ModesCompared.

Lemma same_policy_refl (w : World) : same_policy w w.
Proof. repeat split. Qed.

Lemma same_policy_log (ev : event) (w : World) : same_policy (log ev w) w.
Proof. repeat split. Qed.

Lemma same_policy_abort_world (x : ExceptionBase) (w : World) :
  same_policy (abort_world x w) w.
Proof.
  unfold same_policy, abort_world, abort, bind, read, emit, std_abort; simpl.
  destruct (additional_assert_output w); simpl; repeat split.
Qed.

(** X7. Once aborting has been disabled, [Assert] in a DEBUG build and
    [AssertThrow] are the same check: for every condition and every
    exception object they end the same way and leave the same process
    behind. Without DEBUG they differ exactly on a false condition, where
    [Assert] does nothing and [AssertThrow] still throws. *)
Theorem Assert_is_AssertThrow_once_abort_disabled
    (site : call_site) (cond : bool) (ct et : string)
    (x : ExceptionBase) (w : World) :
  let w0 := snd (disable_abort_on_exception w) in
  Assert true site cond ct et x w0 = AssertThrow site cond ct et x w0
  /\ Assert false site cond ct et x w = (Normal tt, w)
  /\ triggers_failure (AssertThrow site cond ct et x) w = negb cond.
Proof.
  cbv zeta. split; [| split].
  - rewrite run_Assert. unfold AssertThrow.
    destruct cond; cbn [andb negb]; [reflexivity |].
    rewrite !run_issue_error_noreturn. reflexivity.
  - reflexivity.
  - unfold triggers_failure, AssertThrow.
    destruct cond; cbn [negb]; [reflexivity |].
    rewrite run_issue_error_noreturn. reflexivity.
Qed.

(** X8. The dispatcher reads the policy and never changes it: after
    [issue_error_noreturn] with any handling value, and after
    [issue_error_nothrow], the abort flag, the stack trace switch, the
    additional output and the call stack are what they were, and the
    events recorded before the call are still there, in front of the
    new ones. *)
Theorem dispatcher_keeps_policy
    (handling : ExceptionHandling) (f : string) (l : Z) (fn : string)
    (c n : option string) (e : ExceptionBase) (w : World) :
  let w1 := snd (issue_error_noreturn handling f l fn c n e w) in
  let w2 := snd (issue_error_nothrow f l fn c n e w) in
  same_policy w1 w /\ same_policy w2 w
  /\ firstn (length (trace w)) (trace w1) = trace w
  /\ firstn (length (trace w)) (trace w2) = trace w.
Proof.
  cbv zeta.
  assert (keep : forall evs : list event,
             firstn (length (trace w)) (trace w ++ evs) = trace w).
  { intros evs. rewrite firstn_app, firstn_all, Nat.sub_diag.
    cbn [firstn]. apply app_nil_r. }
  rewrite run_issue_error_noreturn, run_issue_error_nothrow.
  split; [| split; [| split]].
  - destruct (handling =? abort_or_throw_on_exception);
      [destruct (allow_abort_on_exception w) |
       destruct (handling =? throw_on_exception)]; cbn [snd];
      try apply same_policy_log.
    destruct (same_policy_abort_world
                (populated w f l fn c n e) (log (CallSetFields f l fn c n) w))
      as (A & B & C & D).
    repeat split; assumption.
  - destruct (allow_abort_on_exception w); cbn [snd]; [| repeat split].
    destruct (same_policy_abort_world
                (populated w f l fn c n e) (log (CallSetFields f l fn c n) w))
      as (A & B & C & D).
    repeat split; assumption.
  - destruct (handling =? abort_or_throw_on_exception);
      [destruct (allow_abort_on_exception w) |
       destruct (handling =? throw_on_exception)]; cbn [snd];
      try (apply (keep [CallSetFields f l fn c n])).
    rewrite trace_abort_world.
    change (trace (log (CallSetFields f l fn c n) w))
      with (trace w ++ [CallSetFields f l fn c n])%list.
    rewrite <- app_assoc. apply keep.
  - destruct (allow_abort_on_exception w); cbn [snd].
    + rewrite trace_abort_world.
      change (trace (log (CallSetFields f l fn c n) w))
        with (trace w ++ [CallSetFields f l fn c n])%list.
      rewrite <- app_assoc. apply keep.
    + change (trace (log ?a (log ?b w))) with ((trace w ++ [b]) ++ [a])%list.
      rewrite <- app_assoc. apply keep.
Qed.

(** X9. [DEAL_II_NOT_IMPLEMENTED()] and [DEAL_II_ASSERT_UNREACHABLE()]
    are active in every build and never return: they abort, or, once
    aborting is disabled, throw [ExcNotImplemented] with its default text
    and [ExcMessage] with the unreachable-code text; the object records
    the location but neither a condition nor a name. Whatever follows the
    macro in the program is never run. *)
Theorem unconditional_macros_never_return
    (site : call_site) (rest : M unit) (w : World) :
  let thrown k :=
    populated w (FILE site) (LINE site) (PRETTY_FUNCTION site) None None
      (construct k) in
  fst (DEAL_II_NOT_IMPLEMENTED site w)
  = (if allow_abort_on_exception w then Aborted
     else Thrown (thrown (ExcNotImplemented ExcNotImplemented_defaulttext)))
  /\ fst (DEAL_II_ASSERT_UNREACHABLE site w)
     = (if allow_abort_on_exception w then Aborted
        else Thrown (thrown (ExcMessage unreachable_message)))
  /\ (forall k, cond (thrown k) = None /\ exc (thrown k) = None
                /\ file (thrown k) = FILE site /\ function (thrown k) = PRETTY_FUNCTION site)
  /\ (DEAL_II_NOT_IMPLEMENTED site ;; rest) w = DEAL_II_NOT_IMPLEMENTED site w
  /\ (DEAL_II_ASSERT_UNREACHABLE site ;; rest) w = DEAL_II_ASSERT_UNREACHABLE site w.
Proof.
  cbv zeta. unfold DEAL_II_NOT_IMPLEMENTED, DEAL_II_ASSERT_UNREACHABLE, bind.
  rewrite !run_issue_error_noreturn. cbn [abort_or_throw_on_exception Z.eqb].
  destruct (allow_abort_on_exception w); repeat split.
Qed.

End ModesCompared.

(* ===================================================================== *)
(** * Checks one after the other *)
(* ===================================================================== *)

Section ChecksInOrder.

Lemma bind_failure {A B : Type} (c : M A) (k : A -> M B) (w : World) :
  triggers_failure c w = true ->
  triggers_failure (bind c k) w = true
  /\ fst (bind c k w) = match fst (c w) with
                         | Normal _ => Aborted
                         | Thrown e => Thrown e
                         | Aborted => Aborted
                         end
  /\ snd (bind c k w) = snd (c w).
Proof.
  unfold triggers_failure, bind.
  destruct (c w) as [[a | e |] w']; cbn; intros H;
    [discriminate | |]; repeat split.
Qed.

Lemma bind_failure_unit (c : M unit) (k : unit -> M unit) (w : World) :
  triggers_failure c w = true -> bind c k w = c w.
Proof.
  unfold triggers_failure, bind.
  destruct (c w) as [[a | e |] w']; cbn; intros H;
    [discriminate | |]; reflexivity.
Qed.

Lemma bind_pass {A B : Type} (c : M A) (k : A -> M B) (w w' : World) (a : A) :
  c w = (Normal a, w') -> bind c k w = k a w'.
Proof. intros H. unfold bind. now rewrite H. Qed.

Variable A : Type.
Variables (D : bool) (site : call_site) (T : int_type) (DIM : Z) (lt rt : string).
Hypothesis DIM_range : in_range T DIM.
Hypothesis DIM_nonneg : 0 <= DIM.

(** The check of one size against [DIM]. *)
Let size_check (text : string) (n : nat) : M unit :=
  AssertDimension D site size_t T (Z.of_nat n) DIM text rt.

Lemma size_check_triggers (text : string) (n : nat) (w : World) :
  in_range size_t (Z.of_nat n) ->
  triggers_failure (size_check text n) w = D && negb (Z.of_nat n =? DIM).
Proof.
  intros H. unfold size_check, AssertDimension.
  rewrite Assert_triggers.
  now rewrite (compare_helpers_exact_pair size_t T _ _ H DIM_range
                 (Nat2Z.is_nonneg n) DIM_nonneg).
Qed.

Lemma size_check_pass (text : string) (n : nat) (w : World) :
  in_range size_t (Z.of_nat n) -> Z.of_nat n = DIM ->
  size_check text n w = (Normal tt, w).
Proof.
  intros H E. unfold size_check, AssertDimension.
  rewrite run_Assert.
  rewrite (compare_helpers_exact_pair size_t T _ _ H DIM_range
             (Nat2Z.is_nonneg n) DIM_nonneg).
  apply Z.eqb_eq in E. rewrite E. now rewrite andb_false_r.
Qed.

Lemma size_check_release (text : string) (n : nat) (w : World) :
  D = false -> size_check text n w = (Normal tt, w).
Proof.
  intros HD. unfold size_check, AssertDimension.
  rewrite run_Assert, HD. reflexivity.
Qed.

Let loop (l : list (list A)) : M unit :=
  for_each l (fun subvector => size_check "subvector.size()" (length subvector)).

Lemma loop_pass (l : list (list A)) (w : World) :
  Forall (fun sub => in_range size_t (Z.of_nat (length sub))) l ->
  Forall (fun sub => Z.of_nat (length sub) = DIM) l ->
  loop l w = (Normal tt, w).
Proof.
  intros R. induction R as [| sub l Hs R IH]; intros ok; [reflexivity |].
  pose proof (Forall_inv ok) as E. pose proof (Forall_inv_tail ok) as ok'.
  unfold loop. cbn [for_each].
  rewrite (bind_pass _ _ w w tt (size_check_pass _ _ w Hs E)).
  now apply IH.
Qed.

Lemma loop_first_mismatch (pre post : list (list A)) (bad : list A) (w : World) :
  Forall (fun sub => in_range size_t (Z.of_nat (length sub))) (pre ++ bad :: post) ->
  Forall (fun sub => Z.of_nat (length sub) = DIM) pre ->
  Z.of_nat (length bad) <> DIM ->
  D = true ->
  loop (pre ++ bad :: post) w = size_check "subvector.size()" (length bad) w.
Proof.
  intros R ok ne HD. induction pre as [| sub pre IH].
  - cbn [app] in *. pose proof (Forall_inv R) as Hb.
    unfold loop. cbn [for_each]. apply bind_failure_unit.
    rewrite (size_check_triggers _ _ w Hb).
    apply Z.eqb_neq in ne. rewrite ne, HD. reflexivity.
  - cbn [app] in *. pose proof (Forall_inv R) as Hs.
    pose proof (Forall_inv_tail R) as R'.
    pose proof (Forall_inv ok) as E. pose proof (Forall_inv_tail ok) as ok'.
    rewrite <- app_comm_cons. unfold loop. cbn [for_each].
    rewrite (bind_pass _ _ w w tt (size_check_pass _ _ w Hs E)).
    now apply IH.
Qed.

Lemma loop_triggers (l : list (list A)) (w : World) :
  Forall (fun sub => in_range size_t (Z.of_nat (length sub))) l ->
  triggers_failure (loop l) w
  = D && negb (forallb (fun sub => Z.of_nat (length sub) =? DIM) l).
Proof.
  intros R. induction R as [| sub l Hs R IH].
  - cbn. now rewrite andb_false_r.
  - cbn [forallb]. destruct (Z.eqb_spec (Z.of_nat (length sub)) DIM) as [E | ne].
    + cbn [andb]. rewrite <- IH. unfold loop. cbn [for_each].
      unfold triggers_failure.
      now rewrite (bind_pass _ _ w w tt (size_check_pass _ _ w Hs E)).
    + cbn [andb negb]. rewrite andb_true_r.
      destruct (Bool.bool_dec D true) as [HD | HD].
      * etransitivity; [| symmetry; exact HD]. unfold loop. cbn [for_each].
        apply bind_failure.
        rewrite (size_check_triggers _ _ w Hs).
        apply Z.eqb_neq in ne. rewrite ne, HD. reflexivity.
      * apply not_true_is_false in HD.
        unfold loop. cbn [for_each]. unfold triggers_failure.
        rewrite (bind_pass _ _ w w tt (size_check_release _ _ w HD)).
        change (triggers_failure (loop l) w = D). rewrite IH, HD. reflexivity.
Qed.

End ChecksInOrder.

(** X10. [AssertVectorVectorDimension(VEC, DIM1, DIM2)] with expected
    sizes that are non-negative values of their types: in a DEBUG build it
    fails exactly when [VEC] does not have [DIM1] entries or some entry
    does not have size [DIM2], and leaves the process as it was when all
    sizes agree. It stops at the first mismatch: a wrong outer size is
    reported by the first check and no entry is looked at; otherwise the
    failure is that of the first entry of the wrong size, reported with
    its own size against [DIM2]. *)
Theorem AssertVectorVectorDimension_stops_at_first_mismatch
    (A : Type) (D : bool) (site : call_site) (VEC : list (list A))
    (T1 T2 : int_type) (DIM1 DIM2 : Z) (vt t1 t2 : string) (w : World) :
  in_range T1 DIM1 -> 0 <= DIM1 -> in_range T2 DIM2 -> 0 <= DIM2 ->
  in_range size_t (Z.of_nat (length VEC)) ->
  Forall (fun sub => in_range size_t (Z.of_nat (length sub))) VEC ->
  let check D := AssertVectorVectorDimension D site VEC T1 T2 DIM1 DIM2 vt t1 t2 in
  let sizes_ok :=
    (Z.of_nat (length VEC) =? DIM1)
    && forallb (fun sub => Z.of_nat (length sub) =? DIM2) VEC in
  triggers_failure (check D) w = D && negb sizes_ok
  /\ (sizes_ok = true -> check D w = (Normal tt, w))
  /\ (Z.of_nat (length VEC) <> DIM1 ->
      check true w
      = AssertDimension true site size_t T1 (Z.of_nat (length VEC)) DIM1
          (vt ++ ".size()") t1 w)
  /\ (forall pre bad post,
        Z.of_nat (length VEC) = DIM1 ->
        VEC = (pre ++ bad :: post)%list ->
        Forall (fun sub => Z.of_nat (length sub) = DIM2) pre ->
        Z.of_nat (length bad) <> DIM2 ->
        check true w
        = AssertDimension true site size_t T2 (Z.of_nat (length bad)) DIM2
            "subvector.size()" t2 w).
Proof.
  intros R1 n1 R2 n2 Rv Rs check sizes_ok. subst check sizes_ok. cbv beta.
  unfold AssertVectorVectorDimension.
  split; [| split; [| split]].
  - destruct (Z.eqb_spec (Z.of_nat (length VEC)) DIM1) as [E | ne].
    + cbn [andb]. unfold triggers_failure.
      rewrite (bind_pass _ _ w w tt (size_check_pass D site T1 DIM1 t1 R1 n1 _ _ w Rv E)).
      apply (loop_triggers A D site T2 DIM2 t2 R2 n2 VEC w Rs).
    + cbn [andb negb]. rewrite andb_true_r. destruct D.
      * apply bind_failure.
        rewrite (size_check_triggers true site T1 DIM1 t1 R1 n1 _ _ w Rv).
        apply Z.eqb_neq in ne. now rewrite ne.
      * unfold triggers_failure.
        rewrite (bind_pass _ _ w w tt
                   (size_check_release false site T1 DIM1 t1 _ _ w eq_refl)).
        apply (loop_triggers A false site T2 DIM2 t2 R2 n2 VEC w Rs).
  - intros ok. apply andb_true_iff in ok. destruct ok as [E ok].
    apply Z.eqb_eq in E.
    rewrite (bind_pass _ _ w w tt (size_check_pass D site T1 DIM1 t1 R1 n1 _ _ w Rv E)).
    apply (loop_pass A D site T2 DIM2 t2 R2 n2 VEC w Rs).
    apply Forall_forall. intros sub Hin.
    rewrite forallb_forall in ok. now apply Z.eqb_eq, ok.
  - intros ne. apply bind_failure_unit.
    rewrite (size_check_triggers true site T1 DIM1 t1 R1 n1 _ _ w Rv).
    apply Z.eqb_neq in ne. now rewrite ne.
  - intros pre bad post E -> ok ne.
    rewrite (bind_pass _ _ w w tt
               (size_check_pass true site T1 DIM1 t1 R1 n1 _ _ w Rv E)).
    apply (loop_first_mismatch A true site T2 DIM2 t2 R2 n2 pre post bad w Rs ok ne eq_refl).
Qed.

(** Three data sets, the second with one value where two are expected. *)
Lemma AssertVectorVectorDimension_stops_at_first_mismatch_witness :
  let datasets := [[1; 2]; [3]; [4; 5]] in
  let w := initial_world [] in
  triggers_failure
    (AssertVectorVectorDimension true trace_cc_site datasets
       unsigned_int_t unsigned_int_t 3 2 "datasets" "N" "2") w = true
  /\ AssertVectorVectorDimension true trace_cc_site datasets
       unsigned_int_t unsigned_int_t 3 2 "datasets" "N" "2" w
     = AssertDimension true trace_cc_site size_t unsigned_int_t 1 2
         "subvector.size()" "2" w.
Proof.
  intros datasets w.
  assert (R : in_range unsigned_int_t 3) by (unfold in_range; cbn; lia).
  assert (R' : in_range unsigned_int_t 2) by (unfold in_range; cbn; lia).
  assert (Rv : in_range size_t (Z.of_nat (length datasets)))
    by (unfold in_range; cbn; lia).
  assert (Rs : Forall (fun sub : list Z => in_range size_t (Z.of_nat (length sub)))
                 datasets)
    by (repeat constructor; unfold in_range; cbn; lia).
  destruct (AssertVectorVectorDimension_stops_at_first_mismatch Z true
              trace_cc_site datasets unsigned_int_t unsigned_int_t 3 2
              "datasets" "N" "2" w R ltac:(lia) R' ltac:(lia) Rv Rs)
    as (Htrig & _ & _ & Hfirst).
  split; [exact Htrig |].
  apply (Hfirst [[1; 2]] [3] [[4; 5]]);
    [reflexivity | reflexivity | repeat constructor | cbn; lia].
Defined.

(* ===================================================================== *)
(** * Reading the arguments back from an explanation *)
(* ===================================================================== *)

Section ReadingBack.

Lemma app_inv_head_s (s x y : string) : s ++ x = s ++ y -> x = y.
Proof.
  induction s as [| c s IH]; cbn; [auto |]. intros [= H]. auto.
Qed.

Lemma all_num_cons (c : ascii) (s : string) :
  all_num (String c s) -> is_num_char c = true /\ all_num s.
Proof.
  unfold all_num. cbn [strip_num].
  destruct (is_num_char c); [auto | discriminate].
Qed.

(** Two texts that start with a number and go on with a character that
    is not part of a number agree on the number and on the rest. *)
Lemma num_split (d1 d2 : string) (c1 c2 : ascii) (r1 r2 : string) :
  all_num d1 -> all_num d2 ->
  is_num_char c1 = false -> is_num_char c2 = false ->
  d1 ++ String c1 r1 = d2 ++ String c2 r2 ->
  d1 = d2 /\ r1 = r2.
Proof.
  revert d2. induction d1 as [| a d1 IH]; intros d2 N1 N2 F1 F2 E.
  - destruct d2 as [| b d2]; cbn in E.
    + injection E as _ E. auto.
    + injection E as Ec _. apply all_num_cons in N2. destruct N2 as [N2 _].
      congruence.
  - apply all_num_cons in N1. destruct N1 as [Na N1].
    destruct d2 as [| b d2]; cbn in E.
    + injection E as Ec _. congruence.
    + injection E as Ec E. apply all_num_cons in N2. destruct N2 as [_ N2].
      destruct (IH d2 N1 N2 F1 F2 E) as [-> ->]. subst. auto.
Qed.

Lemma show_Z_inj (a b : Z) : show_Z a = show_Z b -> a = b.
Proof.
  unfold show_Z. intros H.
  assert (ok : forall z, Z.to_int z <> Pos Nil /\ Z.to_int z <> Neg Nil).
  { intros z. destruct z; cbn; split; try discriminate;
      intros [= E]; revert E; apply DecimalPos.Unsigned.to_uint_nonnil. }
  apply (f_equal NilZero.int_of_string) in H.
  rewrite !NilZero.isi in H by apply ok.
  injection H as H. now apply DecimalZ.to_int_inj.
Qed.

Lemma show_Z_num (z : Z) : all_num (show_Z z).
Proof. apply strip_num_show_Z. Qed.

(** Split off the leading number of both sides of an equation between
    two explanations. *)
Ltac read_number H :=
  rewrite ?app_assoc_s in H;
  cbn [append] in H;
  repeat match type of H with
         | String ?c _ = String ?c _ => injection H as H
         end;
  match type of H with
  | show_Z ?a ++ String ?c1 ?r1 = show_Z ?b ++ String ?c2 ?r2 =>
      let Hn := fresh "Hn" in
      destruct (num_split (show_Z a) (show_Z b) c1 c2 r1 r2
                  (show_Z_num a) (show_Z_num b) eq_refl eq_refl H) as [Hn H'];
      apply show_Z_inj in Hn; clear H; rename H' into H
  end.

(** X11. The explanation of a size or index failure determines its
    arguments: two [ExcDimensionMismatch], [ExcLowerRange], [ExcIndexRange]
    or [ExcIndexRangeType] objects that print the same explanation carry
    the same numbers, so the numbers can be read back from the message
    without ambiguity. *)
Theorem explanations_determine_arguments
    (T T' : int_type) (a b c a' b' c' : Z) :
  (print_info (ExcDimensionMismatch a b) = print_info (ExcDimensionMismatch a' b')
   -> a = a' /\ b = b')
  /\ (print_info (ExcLowerRange a b) = print_info (ExcLowerRange a' b')
      -> a = a' /\ b = b')
  /\ (print_info (ExcIndexRange a b c) = print_info (ExcIndexRange a' b' c')
      -> a = a' /\ b = b' /\ c = c')
  /\ (print_info (ExcIndexRangeType T a b c)
      = print_info (ExcIndexRangeType T' a' b' c')
      -> a = a' /\ b = b' /\ c = c').
Proof.
  assert (range : "    " ++ index_range_outsequence a b c ++ endl
                  = "    " ++ index_range_outsequence a' b' c' ++ endl
                  -> a = a' /\ b = b' /\ c = c').
  { unfold index_range_outsequence. intros H.
    read_number H. read_number H. read_number H. auto. }
  split; [| split; [| split]]; cbn [print_info]; try exact range.
  - intros H. read_number H. read_number H. auto.
  - intros H. read_number H. read_number H. auto.
Qed.

(** Two objects [ExcDimensionMismatch(3, 2)]. *)
Lemma explanations_determine_arguments_witness :
  print_info (ExcDimensionMismatch 3 2) = print_info (ExcDimensionMismatch 3 2)
  /\ (3 = 3 /\ 2 = 2).
Proof.
  split; [reflexivity |].
  exact (proj1 (explanations_determine_arguments size_t size_t 3 2 0 3 2 0)
           eq_refl).
Defined.

End ReadingBack.

(* ===================================================================== *)
(** * Handlers around checks *)
(* ===================================================================== *)

(** X12. A handler around code that starts with [AssertThrow] always
    gets control when the condition is false, whatever the policy: the
    code after the check is skipped, the handler receives the populated
    object in the process as the check left it, and with a handler that
    returns the program goes on. When the condition is true the check is
    transparent. Around a failing [Assert] of a DEBUG build the handler
    gets control if and only if aborting has been disabled. *)
Theorem AssertThrow_is_always_catchable
    (site : call_site) (cond : bool) (ct et : string) (x : ExceptionBase)
    (rest : M unit) (handler : ExceptionBase -> M unit) (w : World) :
  let thrown :=
    populated w (FILE site) (LINE site) (PRETTY_FUNCTION site)
      (Some ct) (Some et) x in
  let after :=
    log (CallSetFields (FILE site) (LINE site) (PRETTY_FUNCTION site)
           (Some ct) (Some et)) w in
  try_catch (AssertThrow site cond ct et x ;; rest) handler w
  = (if cond then try_catch rest handler w else handler thrown after)
  /\ fst (try_catch (AssertThrow site false ct et x ;; rest)
            (fun _ => ret tt) w) = Normal tt
  /\ try_catch (Assert true site false ct et x ;; rest) handler w
     = (if allow_abort_on_exception w
        then (Aborted, abort_world thrown after)
        else handler thrown after).
Proof.
  cbv zeta. unfold try_catch, bind, AssertThrow. rewrite run_Assert.
  cbn [andb negb]. split; [| split].
  - destruct cond; cbn [negb]; [reflexivity |].
    rewrite run_issue_error_noreturn. reflexivity.
  - rewrite run_issue_error_noreturn. reflexivity.
  - rewrite run_issue_error_noreturn.
    cbn [abort_or_throw_on_exception Z.eqb].
    destruct (allow_abort_on_exception w); reflexivity.
Qed.

(* ===================================================================== *)
(** * tests/lac/trace.cc for every size *)
(* ===================================================================== *)

Section TraceForEverySize.

Lemma list_set_length (l : list float) (k : nat) (x : float) :
  length (list_set l k x) = length l.
Proof.
  revert k; induction l as [| y l IH]; intros [| k]; cbn; auto.
Qed.

Lemma nth_list_set_same (l : list float) (k : nat) (x d : float) :
  (k < length l)%nat -> nth k (list_set l k x) d = x.
Proof.
  revert k; induction l as [| y l IH]; intros [| k]; cbn; intros H;
    try lia; auto. apply IH. lia.
Qed.

Lemma nth_list_set_other (l : list float) (k k' : nat) (x d : float) :
  k <> k' -> nth k' (list_set l k x) d = nth k' l d.
Proof.
  revert k k'; induction l as [| y l IH]; intros [| k] [| k'] H; cbn;
    try reflexivity; try congruence. apply IH. congruence.
Qed.

Lemma fold_left_agree {S X : Type} (f g : S -> X -> S) (l : list X) (s : S) :
  (forall x a, In x l -> f a x = g a x) ->
  fold_left f l s = fold_left g l s.
Proof.
  revert s; induction l as [| x l IH]; intros s H; cbn; [reflexivity |].
  rewrite (H x s (or_introl eq_refl)). apply IH.
  intros y a Hy. apply H. now right.
Qed.

Variable N : nat.

Lemma square_set_entry (m : FullMatrix) (i j : nat) (x : float) :
  square N m -> square N (set_entry m i j x).
Proof.
  intros (R & C & L). repeat split; cbn; auto.
  now rewrite list_set_length.
Qed.

Lemma entry_set_entry_same (m : FullMatrix) (i j : nat) (x : float) :
  square N m -> (i < N)%nat -> (j < N)%nat ->
  entry (set_entry m i j x) i j = x.
Proof.
  intros (R & C & L) Hi Hj. unfold entry, set_entry. cbn [n_cols values].
  apply nth_list_set_same. rewrite L, C. nia.
Qed.

Lemma entry_set_entry_other (m : FullMatrix) (i j i' j' : nat) (x : float) :
  square N m -> (j < N)%nat -> (j' < N)%nat ->
  (i, j) <> (i', j') ->
  entry (set_entry m i j x) i' j' = entry m i' j'.
Proof.
  intros (R & C & L) Hj Hj' ne. unfold entry, set_entry. cbn [n_cols values].
  apply nth_list_set_other. rewrite C. intros E.
  apply ne. assert (i = i') by nia. subst i'. f_equal. nia.
Qed.

(** The inner loop, stopped after [k] columns of row [i]. *)
Lemma fill_row_spec (i k : nat) (m : FullMatrix) (tr : float) :
  square N m -> (i < N)%nat -> (k <= N)%nat ->
  let m' := fst (fill_row N i k (m, tr)) in
  let tr' := snd (fill_row N i k (m, tr)) in
  square N m'
  /\ (forall j, (j < k)%nat -> entry m' i j = double_of_unsigned_sum i j)
  /\ (forall i' j', (j' < N)%nat -> (i' <> i \/ k <= j')%nat ->
        entry m' i' j' = entry m i' j')
  /\ tr' = (if Nat.ltb i k then (tr + double_of_unsigned_sum i i)%float else tr).
Proof.
  intros Sq Hi. induction k as [| k IH]; intros Hk.
  - cbv zeta. cbn.
    split; [exact Sq | split; [intros j Hj; lia | split; [reflexivity |]]].
    reflexivity.
  - destruct (IH ltac:(lia)) as (Sq' & Set' & Keep' & Tr'). clear IH.
    unfold fill_row in *. rewrite seq_S, fold_left_app. cbn [plus fold_left].
    destruct (fold_left _ (seq 0 k) (m, tr)) as [m1 tr1] eqn:E.
    cbn [fst snd] in *.
    assert (Sq2 : square N (set_entry m1 i k (double_of_unsigned_sum i k)))
      by now apply square_set_entry.
    assert (Ent : forall j, (j < S k)%nat ->
                    entry (set_entry m1 i k (double_of_unsigned_sum i k)) i j
                    = double_of_unsigned_sum i j).
    { intros j Hj. destruct (Nat.eq_dec j k) as [-> | ne].
      - apply entry_set_entry_same; auto; lia.
      - rewrite entry_set_entry_other; auto; try lia; [apply Set'; lia |].
        intros [= E']. congruence. }
    assert (Oth : forall i' j', (j' < N)%nat -> (i' <> i \/ S k <= j')%nat ->
                    entry (set_entry m1 i k (double_of_unsigned_sum i k)) i' j'
                    = entry m i' j').
    { intros i' j' Hj' H. rewrite entry_set_entry_other; auto; try lia.
      - apply Keep'; auto. destruct H; [left; auto | right; lia].
      - intros [= E1 E2]. subst. destruct H; [congruence | lia]. }
    destruct (Nat.eqb_spec i k) as [e | ne]; cbn [fst snd];
      (split; [exact Sq2 | split; [exact Ent | split; [exact Oth |]]]).
    + rewrite Tr', e, Nat.ltb_irrefl.
      assert (L : Nat.ltb k (S k) = true) by (apply Nat.ltb_lt; lia).
      now rewrite L.
    + rewrite Tr'.
      destruct (Nat.ltb_spec i k), (Nat.ltb_spec i (S k)); auto; lia.
Qed.

(** The outer loop, stopped after [k] rows. *)
Lemma fill_rows_spec (k : nat) :
  (k <= N)%nat ->
  let st := fold_left (fun st i => fill_row N i N st) (seq 0 k)
              (FullMatrix_new N N, 0%float) in
  square N (fst st)
  /\ (forall i j, (i < k)%nat -> (j < N)%nat ->
        entry (fst st) i j = double_of_unsigned_sum i j)
  /\ snd st = diagonal_sum k.
Proof.
  induction k as [| k IH]; intros Hk.
  - cbv zeta. cbn.
    split; [| split; [intros i j Hi; lia | reflexivity]].
    repeat split. apply repeat_length.
  - destruct (IH ltac:(lia)) as (Sq & Ent & Tr). clear IH.
    cbv zeta. rewrite seq_S, fold_left_app. cbn [plus fold_left].
    destruct (fold_left _ (seq 0 k) _) as [m tr] eqn:E. cbn [fst snd] in *.
    destruct (fill_row_spec k N m tr Sq ltac:(lia) (le_n N))
      as (Sq' & Row & Keep & Tr').
    split; [exact Sq' | split].
    + intros i j Hi Hj. destruct (Nat.eq_dec i k) as [-> | ne].
      * now apply Row.
      * rewrite Keep; auto. apply Ent; auto. lia.
    + rewrite Tr'. assert (L : Nat.ltb k N = true) by (apply Nat.ltb_lt; lia).
      rewrite L, Tr. unfold diagonal_sum.
      now rewrite seq_S, fold_left_app.
Qed.

End TraceForEverySize.

(* ===================================================================== *)
(** * Sums of doubles that are not negative *)
(* ===================================================================== *)

Section NonNegativeDoubles.

Variables prec emax : Z.

Lemma shr_1_nonneg (r : shr_record) : 0 <= shr_m r -> 0 <= shr_m (shr_1 r).
Proof.
  destruct r as [m rb sb]. cbn [shr_m]. intros H.
  destruct m as [| p | p]; [cbn; lia | destruct p; cbn; lia | lia].
Qed.

Lemma iter_shr_1_nonneg (p : positive) (r : shr_record) :
  0 <= shr_m r -> 0 <= shr_m (iter_pos shr_1 p r).
Proof.
  revert r; induction p as [p IH | p IH |]; intros r H; cbn [iter_pos];
    auto using shr_1_nonneg.
Qed.

Lemma shr_fexp_nonneg (m e : Z) (l : location) :
  0 <= m -> 0 <= shr_m (fst (shr_fexp prec emax m e l)).
Proof.
  intros H. unfold shr_fexp, shr.
  assert (R : 0 <= shr_m (shr_record_of_loc m l))
    by (destruct l as [| []]; exact H).
  destruct (fexp prec emax (Zdigits2 m + e) - e); cbn [fst]; auto.
  now apply iter_shr_1_nonneg.
Qed.

Lemma round_nearest_even_nonneg (m : Z) (l : location) :
  0 <= m -> 0 <= round_nearest_even m l.
Proof.
  intros H. destruct l as [| []]; cbn; try lia.
  destruct (Z.even m); lia.
Qed.

Lemma binary_round_aux_nonneg (m e : Z) (l : location) :
  0 <= m -> nonneg_number (binary_round_aux prec emax false m e l).
Proof.
  intros H. unfold binary_round_aux.
  pose proof (shr_fexp_nonneg m e l H) as H1.
  destruct (shr_fexp prec emax m e l) as [r1 e1]. cbn [fst] in H1.
  pose proof (shr_fexp_nonneg _ e1 loc_Exact
                (round_nearest_even_nonneg _ (loc_of_shr_record r1) H1)) as H2.
  destruct (shr_fexp prec emax _ e1 loc_Exact) as [r2 e2]. cbn [fst] in H2.
  destruct (shr_m r2) as [| p | p]; [exact I | | lia].
  destruct (e2 <=? emax - prec); exact I.
Qed.

Lemma binary_normalize_nonneg (m e : Z) (szero : bool) :
  0 <= m -> nonneg_number (binary_normalize prec emax m e szero).
Proof.
  intros H. destruct m as [| p | p]; [exact I | | lia].
  cbn [binary_normalize]. unfold binary_round.
  destruct (shl_align p e _) as [mz ez].
  apply binary_round_aux_nonneg. lia.
Qed.

Lemma SFadd_nonneg (x y : spec_float) :
  nonneg_number x -> nonneg_number y -> nonneg_number (SFadd prec emax x y).
Proof.
  destruct x as [sx | [] | | [] mx ex], y as [sy | [] | | [] my ey];
    cbn [nonneg_number]; try contradiction; intros _ _;
    try exact I.
  - destruct sx, sy; exact I.
  - cbn [SFadd cond_Zopp]. apply binary_normalize_nonneg. lia.
Qed.

Lemma SFeqb_nonneg_refl (x : spec_float) : nonneg_number x -> SFeqb x x = true.
Proof.
  destruct x as [s | [] | | [] m e]; cbn [nonneg_number]; try contradiction;
    intros _; try reflexivity.
  unfold SFeqb, SFcompare. rewrite Z.compare_refl.
  change (Pos.compare_cont Eq m m) with (Pos.compare m m).
  now rewrite Pos.compare_refl.
Qed.

End NonNegativeDoubles.

Lemma double_of_unsigned_sum_nonneg (i j : nat) :
  nonneg_number (Prim2SF (double_of_unsigned_sum i j)).
Proof.
  unfold double_of_unsigned_sum. rewrite of_uint63_spec.
  apply binary_normalize_nonneg. apply Uint63.to_Z_bounded.
Qed.

Lemma add_nonneg (x y : float) :
  nonneg_number (Prim2SF x) -> nonneg_number (Prim2SF y) ->
  nonneg_number (Prim2SF (x + y)%float).
Proof. intros Hx Hy. rewrite add_spec. now apply SFadd_nonneg. Qed.

Lemma eqb_nonneg_refl (x : float) :
  nonneg_number (Prim2SF x) -> (x =? x)%float = true.
Proof. intros H. rewrite eqb_spec. now apply SFeqb_nonneg_refl. Qed.

Lemma diagonal_sum_nonneg (k : nat) : nonneg_number (Prim2SF (diagonal_sum k)).
Proof.
  unfold diagonal_sum. induction k as [| k IH].
  - cbn [seq fold_left]. vm_compute. exact I.
  - rewrite seq_S, fold_left_app. cbn [plus fold_left].
    apply add_nonneg; [exact IH | apply double_of_unsigned_sum_nonneg].
Qed.

(** X13. In trace.cc the check holds for every size, not only for 20:
    after the two loops the matrix is [N] by [N], its entry [(i,j)] is the
    double [i+j], and the accumulated [tr] and the library's [trace()] are
    one and the same double, namely the diagonal values added up in
    order. That double is a number and not a NaN, so the condition
    [m.trace() == tr] of the [Assert] is true, the check triggers no
    failure in any build and process, and control returns from it. *)
Theorem trace_and_tr_agree_for_every_size (N : nat) (DEBUG : bool) (w : World) :
  let m := fst (fill_and_sum N) in
  let tr := snd (fill_and_sum N) in
  square N m
  /\ (forall i j, (i < N)%nat -> (j < N)%nat ->
        entry m i j = double_of_unsigned_sum i j)
  /\ tr = diagonal_sum N
  /\ FullMatrix_trace m = tr
  /\ nonneg_number (Prim2SF tr)
  /\ (FullMatrix_trace m =? tr)%float = true
  /\ triggers_failure (check_trace DEBUG m tr) w = false
  /\ check_trace DEBUG m tr w
     = (Normal tt,
        log (WriteDeallog ("Trace=" ++ show_double_fixed0 tr ++ endl)) w).
Proof.
  destruct (fill_rows_spec N N (le_n N)) as (Sq & Ent & Tr).
  change (fold_left (fun st i => fill_row N i N st) (seq 0 N)
            (FullMatrix_new N N, 0%float))
    with (fill_and_sum N) in *.
  cbv zeta.
  assert (Same : FullMatrix_trace (fst (fill_and_sum N)) = snd (fill_and_sum N)).
  { rewrite Tr. unfold FullMatrix_trace, diagonal_sum.
    destruct Sq as (R & _). rewrite R.
    apply fold_left_agree. intros i a Hi. apply in_seq in Hi.
    rewrite Ent by lia. reflexivity. }
  assert (Num : nonneg_number (Prim2SF (snd (fill_and_sum N))))
    by (rewrite Tr; apply diagonal_sum_nonneg).
  assert (Cond : (FullMatrix_trace (fst (fill_and_sum N)) =? snd (fill_and_sum N))%float
                 = true)
    by (rewrite Same; now apply eqb_nonneg_refl).
  assert (Run : check_trace DEBUG (fst (fill_and_sum N)) (snd (fill_and_sum N)) w
                = (Normal tt,
                   log (WriteDeallog ("Trace=" ++ show_double_fixed0 (snd (fill_and_sum N))
                                        ++ endl)) w)).
  { unfold check_trace, bind. rewrite Cond, Same. destruct DEBUG; reflexivity. }
  split; [exact Sq | split; [exact Ent | split; [exact Tr |]]].
  split; [exact Same | split; [exact Num | split; [exact Cond |]]].
  split; [unfold triggers_failure; now rewrite Run | exact Run].
Qed.

(** The matrix of size 20 of trace.cc in a DEBUG build. *)
Lemma trace_and_tr_agree_for_every_size_witness :
  entry (fst (fill_and_sum 20)) 3 4 = double_of_unsigned_sum 3 4
  /\ triggers_failure
       (check_trace true (fst (fill_and_sum 20)) (snd (fill_and_sum 20)))
       (initial_world []) = false.
Proof.
  destruct (trace_and_tr_agree_for_every_size 20 true (initial_world []))
    as (_ & E & _ & _ & _ & _ & T & _).
  split; [apply E; lia | exact T].
Defined.
